(** * freeipa_idpsync: the reconciliation of an IDP directory with FreeIPA

    A shallow embedding of [files/freeipa_idpsync.py]: the entity records,
    the diff functions ([users_not_in], [groups_not_in], [user_match],
    [modified_users], [group_match], [modified_groups]), the six apply
    functions and the apply phase of [sync], and the LDAP loader
    [fetch_ldap] with its helpers.

    Python values are modelled as follows.
    - [str] and [bytes] are both [string] (a sequence of 8-bit characters,
      a [str] standing for its UTF-8 encoding); [bytes.decode] is a
      parameter of the loader section since it can raise.
    - [Optional[str]] is [option string].
    - A [dict] is an insertion-ordered association list with pairwise
      distinct keys ([dict_wf]); order matters because the apply phase
      iterates over dictionaries and prints as it goes. *)

From Stdlib Require Import Ascii.
From stdpp Require Import base strings list gmap sets pretty.

Set Default Proof Using "Type".

(** ** Python dictionaries *)

Definition dict (V : Type) : Type := list (string * V).

Section dict.
Context {V : Type}.

(** [d.keys()] and [d.values()], in insertion order. *)
Definition dict_keys (d : dict V) : list string := d.*1.
Definition dict_values (d : dict V) : list V := d.*2.

(** [d.get(k)] *)
Fixpoint dict_get (k : string) (d : dict V) : option V :=
  match d with
  | [] => None
  | (k', v) :: d' => if decide (k = k') then Some v else dict_get k d'
  end.

(** [k in d] *)
Definition dict_in (k : string) (d : dict V) : bool :=
  bool_decide (k ∈ dict_keys d).

(** [d[k] = v]: an existing key keeps its position. *)
Fixpoint dict_set (k : string) (v : V) (d : dict V) : dict V :=
  match d with
  | [] => [(k, v)]
  | (k', v') :: d' =>
      if decide (k = k') then (k, v) :: d' else (k', v') :: dict_set k v d'
  end.

(** [a == b] on dictionaries: same length, and every key of [a] is in
    [b] with an equal value. *)
Definition dict_eqb (veq : V → V → bool) (a b : dict V) : bool :=
  bool_decide (length a = length b)
  && forallb (λ kv, match dict_get kv.1 b with
                    | Some v' => veq kv.2 v'
                    | None => false
                    end) a.

(** The invariant of every Python dictionary: no key occurs twice. *)
Definition dict_wf (d : dict V) : Prop := NoDup (dict_keys d).
End dict.

(** Python's [a != b] on [Optional[str]] and on [str]. *)
Definition ne {A} `{EqDecision A} (a b : A) : bool := negb (bool_decide (a = b)).

(** ** Entities *)

Record User := mkUser {
  username : string;
  name : string;
  fname : string;
  lname : string;
  shell : option string;
  uid : option string;
  active : bool;
  email : option string;
  auth_type : string;
  idp_name : string;
  idp_username : string;
}.

Module Group.
Record t := mk {
  name : string;
  description : option string;
  members : dict unit;   (* Dict[str, None]: an ordered set of usernames *)
}.
End Group.
Abbreviation Group := Group.t.

Global Instance User_eq_dec : EqDecision User.
Proof. solve_decision. Defined.

Global Instance Group_eq_dec : EqDecision Group.
Proof. solve_decision. Defined.

(** ** The diff engine *)

Definition users_not_in (list1 list2 : dict User) : list User :=
  filter (λ user, dict_in (username user) list2 = false) (dict_values list1).

Definition groups_not_in (list1 list2 : dict Group) : list Group :=
  filter (λ group, dict_in (Group.name group) list2 = false) (dict_values list1).

Definition is_not_None {A} (o : option A) : bool :=
  match o with Some _ => true | None => false end.

Definition user_match (idp_user freeipa_user : User) : bool :=
  if ne (fname idp_user) (fname freeipa_user) then false
  else if ne (lname idp_user) (lname freeipa_user) then false
  else if ne (name idp_user) (name freeipa_user) then false
  else if is_not_None (email idp_user) && ne (email idp_user) (email freeipa_user)
       then false
  else if ne (active idp_user) (active freeipa_user) then false
  else if ne (auth_type idp_user) (auth_type freeipa_user) then false
  else if ne (idp_name idp_user) (idp_name freeipa_user) then false
  else if ne (idp_username idp_user) (idp_username freeipa_user) then false
  else if is_not_None (uid idp_user) && ne (uid idp_user) (uid freeipa_user)
       then false
  else if is_not_None (shell idp_user) && ne (shell idp_user) (shell freeipa_user)
       then false
  else true.

Fixpoint modified_users_loop (idp_values : list User) (freeipa_users : dict User)
    (users : list User) : list User :=
  match idp_values with
  | [] => users
  | idp_user :: rest =>
      match dict_get (username idp_user) freeipa_users with
      | None => modified_users_loop rest freeipa_users users
      | Some freeipa_user =>
          if user_match idp_user freeipa_user
          then modified_users_loop rest freeipa_users users
          else modified_users_loop rest freeipa_users (users ++ [idp_user])
      end
  end.

Definition modified_users (idp_users freeipa_users : dict User) : list User :=
  modified_users_loop (dict_values idp_users) freeipa_users [].

(** [idp_group.members != freeipa_group.members]: the values are all [None]. *)
Definition members_ne (a b : dict unit) : bool :=
  negb (dict_eqb (λ _ _, true) a b).

Definition group_match (idp_group freeipa_group : Group) : bool :=
  if ne (Group.description idp_group) (Group.description freeipa_group) then false
  else if members_ne (Group.members idp_group) (Group.members freeipa_group)
       then false
  else true.

Fixpoint modified_groups_loop (idp_values : list Group) (freeipa_groups : dict Group)
    (groups : list Group) : list Group :=
  match idp_values with
  | [] => groups
  | idp_group :: rest =>
      match dict_get (Group.name idp_group) freeipa_groups with
      | None => modified_groups_loop rest freeipa_groups groups
      | Some freeipa_group =>
          if group_match idp_group freeipa_group
          then modified_groups_loop rest freeipa_groups groups
          else modified_groups_loop rest freeipa_groups (groups ++ [idp_group])
      end
  end.

Definition modified_groups (idp_groups freeipa_groups : dict Group) : list Group :=
  modified_groups_loop (dict_values idp_groups) freeipa_groups [].

(** ** Exceptions *)

Inductive exn :=
| Exception (msg : string)
| KeyError (key : string)
| IndexError
| UnicodeDecodeError
| BadRequest.

Inductive result (A : Type) :=
| Ok (a : A)
| Raise (e : exn).
Arguments Ok {A} a.
Arguments Raise {A} e.

(** ** The FreeIPA client, as the apply functions see it *)

(** Keyword arguments of [client.user_add] and [client.user_mod]. *)
Record user_kwargs := mk_user_kwargs {
  a_uid : string;
  o_givenname : string;
  o_sn : string;
  o_cn : string;
  o_gecos : string;
  o_mail : option string;
  o_ipauserauthtype : string;
  o_ipaidpconfiglink : string;
  o_ipaidpsub : string;
  o_uidnumber : option string;
  o_gidnumber : option string;
  o_loginshell : option string;
  o_nsaccountlock : bool;
}.

Inductive call :=
| user_add (kw : user_kwargs)
| user_mod (kw : user_kwargs)
| user_del (uid : string) (o_preserve : bool)
| group_add (cn : string) (o_description : option string)
| group_add_member (cn : string) (o_user : string)
| group_mod (cn : string) (o_description : option string)
| group_remove_member (cn : string) (o_user : string)
| group_del (cn : string).

(** What a run does that can be observed: a line printed, or a mutating
    call made on the client. *)
Inductive event :=
| Print (line : string)
| Call (c : call).

Global Instance user_kwargs_eq_dec : EqDecision user_kwargs.
Proof. solve_decision. Defined.
Global Instance call_eq_dec : EqDecision call.
Proof. solve_decision. Defined.
Global Instance event_eq_dec : EqDecision event.
Proof. solve_decision. Defined.

Definition prints (t : list event) : list string :=
  omap (λ e, match e with Print l => Some l | Call _ => None end) t.

Definition calls (t : list event) : list call :=
  omap (λ e, match e with Call c => Some c | Print _ => None end) t.

(** A computation against a client in state [cstate]: the events up to
    its end or up to the exception that ended it, and how it ended. *)
Record reply (cstate A : Type) := Reply {
  log : list event;
  ret : result (A * cstate);
}.
Arguments Reply {cstate A} log ret.
Arguments log {cstate A} r.
Arguments ret {cstate A} r.

Definition run (cstate A : Type) : Type := cstate → reply cstate A.

Section run.
Context {cstate : Type}.

Definition run_ret {A} (a : A) : run cstate A := λ s, Reply [] (Ok (a, s)).

Definition run_bind {A B} (f : A → run cstate B) (m : run cstate A)
    : run cstate B :=
  λ s, match ret (m s) with
       | Ok (a, s') => Reply (log (m s) ++ log (f a s')) (ret (f a s'))
       | Raise e => Reply (log (m s)) (Raise e)
       end.

Definition raise {A} (e : exn) : run cstate A := λ s, Reply [] (Raise e).

Definition print (line : string) : run cstate unit :=
  λ s, Reply [Print line] (Ok (tt, s)).
End run.

Global Instance run_mret {cstate} : MRet (run cstate) := @run_ret cstate.
Global Instance run_mbind {cstate} : MBind (run cstate) := @run_bind cstate.

(** [for x in xs: body x] *)
Fixpoint for_each {cstate A} (xs : list A) (body : A → run cstate unit)
    : run cstate unit :=
  match xs with
  | [] => mret tt
  | x :: xs' => body x ;; for_each xs' body
  end.

(** [if b: body] *)
Definition when {cstate} (b : bool) (body : run cstate unit) : run cstate unit :=
  if b then body else mret tt.

(** [len(xs)] used as a condition. *)
Definition len_truthy {A} (xs : list A) : bool := negb (bool_decide (length xs = 0)).

(** ** The apply functions *)

Section applier.
(** The client is a state machine: a call either moves it to a new state
    or raises (the docstrings name [python_freeipa.exceptions.BadRequest]). *)
Context {cstate : Type} (rpc : call → cstate → result cstate).

(** A call on the client: recorded, then answered by [rpc]. *)
Definition invoke (c : call) : run cstate unit :=
  λ s, Reply [Call c] (match rpc c s with
                       | Ok s' => Ok (tt, s')
                       | Raise e => Raise e
                       end).

(** The keyword arguments [freeipa_user_add] and [freeipa_user_mod] pass. *)
Definition user_kwargs_of (user : User) : user_kwargs :=
  {| a_uid := username user;
     o_givenname := fname user;
     o_sn := lname user;
     o_cn := name user;
     o_gecos := name user;
     o_mail := email user;
     o_ipauserauthtype := auth_type user;
     o_ipaidpconfiglink := idp_name user;
     o_ipaidpsub := idp_username user;
     o_uidnumber := uid user;
     o_gidnumber := uid user;
     o_loginshell := shell user;
     o_nsaccountlock := if active user then false else true |}.

Definition freeipa_user_add (user : User) (dry_run : bool) : run cstate unit :=
  print ("   * Adding User " +:+ username user) ;;
  if dry_run then mret tt
  else invoke (user_add (user_kwargs_of user)).

Definition freeipa_user_mod (user : User) (dry_run : bool) : run cstate unit :=
  print ("   * Updating User " +:+ username user) ;;
  if dry_run then mret tt
  else invoke (user_mod (user_kwargs_of user)).

Definition freeipa_user_del (user : User) (dry_run : bool) : run cstate unit :=
  print ("   * Deleting User " +:+ username user) ;;
  if dry_run then mret tt
  else invoke (user_del (username user) false).

Definition freeipa_group_add (group : Group) (dry_run : bool) : run cstate unit :=
  print ("   * Adding Group " +:+ Group.name group) ;;
  when (negb dry_run)
    (invoke (group_add (Group.name group) (Group.description group))) ;;
  when (len_truthy (Group.members group))
    (print ("     * Adding " +:+ pretty (length (Group.members group))
            +:+ " members") ;;
     for_each (dict_keys (Group.members group)) (λ member,
       print ("       * Adding member " +:+ member) ;;
       when (negb dry_run)
         (invoke (group_add_member (Group.name group) member)))).

Definition freeipa_group_mod (idpgroup freeipagroup : Group)
    (idp_users : dict User) (dry_run : bool) : run cstate unit :=
  print ("   * Updating Group " +:+ Group.name idpgroup) ;;
  when (negb dry_run)
    (when (ne (Group.description idpgroup) (Group.description freeipagroup))
       (invoke (group_mod (Group.name idpgroup) (Group.description idpgroup)))) ;;
  when (members_ne (Group.members idpgroup) (Group.members freeipagroup))
    (for_each (dict_keys (Group.members idpgroup)) (λ member,
       when (negb (dict_in member (Group.members freeipagroup)))
         (print ("     * Adding member " +:+ member) ;;
          when (negb dry_run)
            (invoke (group_add_member (Group.name idpgroup) member)))) ;;
     for_each (dict_keys (Group.members freeipagroup)) (λ member,
       when (negb (dict_in member (Group.members idpgroup)))
         (if negb (dict_in member idp_users) then mret tt
          else
            print ("     * Removing member " +:+ member) ;;
            when (negb dry_run)
              (invoke (group_remove_member (Group.name idpgroup) member))))).

Definition freeipa_group_del (group : Group) (dry_run : bool) : run cstate unit :=
  print ("   * Deleting Group " +:+ Group.name group) ;;
  when (negb dry_run) (invoke (group_del (Group.name group))).

(** [d[k]], which raises [KeyError] on a missing key. *)
Definition dict_index {V} (d : dict V) (k : string) : run cstate V :=
  match dict_get k d with
  | Some v => mret v
  | None => raise (KeyError k)
  end.

(** The body of [sync] from the point where both snapshots have been
    fetched: the six diffs, each applied as soon as it is computed.  (The
    lines above it read the configuration, log in and fetch; the call of
    [fetch_ldap] there passes [idp_password], a name [sync] does not bind.) *)
Definition sync (idp_users : dict User) (idp_groups : dict Group)
    (freeipa_users : dict User) (freeipa_groups : dict Group)
    (dry_run : bool) : run cstate unit :=
  when dry_run (print "== DRY RUN ==") ;;
  let new_users := users_not_in idp_users freeipa_users in
  when (len_truthy new_users)
    (print (" * Adding " +:+ pretty (length new_users) +:+ " new users") ;;
     for_each new_users (λ user, freeipa_user_add user dry_run)) ;;
  let deleted_users := users_not_in freeipa_users idp_users in
  when (len_truthy deleted_users)
    (print (" * Deleting " +:+ pretty (length deleted_users) +:+ " users") ;;
     for_each deleted_users (λ user, freeipa_user_del user dry_run)) ;;
  let new_groups := groups_not_in idp_groups freeipa_groups in
  when (len_truthy new_groups)
    (print (" * Adding " +:+ pretty (length new_groups) +:+ " new groups") ;;
     for_each new_groups (λ group, freeipa_group_add group dry_run)) ;;
  let deleted_groups := groups_not_in freeipa_groups idp_groups in
  when (len_truthy deleted_groups)
    (print (" * Deleting " +:+ pretty (length deleted_groups) +:+ " groups") ;;
     for_each deleted_groups (λ group, freeipa_group_del group dry_run)) ;;
  let updated_users := modified_users idp_users freeipa_users in
  when (len_truthy updated_users)
    (print ("  * Updating " +:+ pretty (length updated_users) +:+ " users") ;;
     for_each updated_users (λ user, freeipa_user_mod user dry_run)) ;;
  let updated_groups := modified_groups idp_groups freeipa_groups in
  when (len_truthy updated_groups)
    (print ("  * Updating " +:+ pretty (length updated_groups) +:+ " groups") ;;
     for_each updated_groups (λ group,
       freeipagroup ← dict_index freeipa_groups (Group.name group) ;
       freeipa_group_mod group freeipagroup idp_users dry_run)) ;;
  print "Sync Complete".
End applier.

(** ** The LDAP loader *)

Global Instance result_ret : MRet result := @Ok.
Global Instance result_bind : MBind result := λ A B f m,
  match m with
  | Ok a => f a
  | Raise e => Raise e
  end.

(** [s.split(sep)] for a separator of one character: never empty. *)
Fixpoint split (sep : ascii) (s : string) : list string :=
  match s with
  | EmptyString => [EmptyString]
  | String c s' =>
      if decide (c = sep) then EmptyString :: split sep s'
      else match split sep s' with
           | [] => [String c EmptyString]
           | w :: ws => String c w :: ws
           end
  end.

(** [l[i]] *)
Definition index {A} (l : list A) (i : nat) : result A :=
  match l !! i with
  | Some x => Ok x
  | None => Raise IndexError
  end.

(** [x in l] on a list *)
Definition list_in (x : string) (l : list string) : bool := bool_decide (x ∈ l).

(** The keys of the configuration file that [fetch_ldap] reads.  The ones
    read with [config[...][...]] are required; the ones read with [.get]
    may be missing. *)
Record config := mk_config {
  ignore_users : string;
  ignore_groups : string;
  attr_active_values : string;
  attr_username : string;
  attr_fname : string;
  attr_lname : string;
  attr_name : string;
  attr_email : option string;
  attr_uid : option string;
  attr_shell : option string;
  attr_active : string;
  attr_group_members : string;
  attr_group_name : string;
  attr_group_description : option string;
  freeipa_idp_name : string;   (* config["freeipa"]["idp_name"] *)
}.

(** [row["raw_attributes"]]: an attribute name maps to a list of [bytes]. *)
Definition raw_attributes : Type := dict (list string).

Section loader.
(** [bytes.decode("utf-8")]; [None] stands for [UnicodeDecodeError]. *)
Context (decode : string → option string).

Definition decode_utf8 (val : string) : result string :=
  match decode val with
  | Some s => Ok s
  | None => Raise UnicodeDecodeError
  end.

Definition fetch_string (values : raw_attributes) (name : option string)
    : result (option string) :=
  match name with
  | None => Ok None
  | Some name =>
      if bool_decide (String.length name = 0) then Ok None
      else match dict_get name values with
           | None | Some [] => Ok None
           | Some (val :: _) => val ← decode_utf8 val; Ok (Some val)
           end
  end.

Definition fetch_required_string (values : raw_attributes) (name : string)
    : result string :=
  if bool_decide (String.length name = 0)
  then Raise (Exception "name must have length greater than 0")
  else
    val ← fetch_string values (Some name);
    match val with
    | None => Raise (Exception (name +:+ " does not exist"))
    | Some val => Ok val
    end.

Section fetch_ldap.
Context (config : config).

Definition ignore_users_list : list string := split ","%char (ignore_users config).
Definition ignore_groups_list : list string := split ","%char (ignore_groups config).
Definition active_values : list string := split ","%char (attr_active_values config).

(** The body of the loop over the rows of the user search. *)
Definition ldap_user_row (attr : raw_attributes) (users : dict User)
    : result (dict User) :=
  idp_username ← fetch_string attr (Some (attr_username config));
  match idp_username with
  | None => Ok users
  | Some idp_username =>
      if list_in idp_username ignore_users_list then Ok users
      else
        u_username ← index (split "@"%char idp_username) 0;
        u_fname ← fetch_required_string attr (attr_fname config);
        u_lname ← fetch_required_string attr (attr_lname config);
        u_name ← fetch_required_string attr (attr_name config);
        u_email ← fetch_string attr (attr_email config);
        u_uid ← fetch_string attr (attr_uid config);
        u_shell ← fetch_string attr (attr_shell config);
        u_active ← fetch_required_string attr (attr_active config);
        let user :=
          {| username := u_username; fname := u_fname; lname := u_lname;
             name := u_name; email := u_email; uid := u_uid;
             auth_type := "idp"; idp_name := freeipa_idp_name config;
             idp_username := idp_username; shell := u_shell;
             active := if list_in u_active active_values then true else false |} in
        if dict_in (username user) users
        then Raise (Exception ("Duplicate user " +:+ username user))
        else Ok (dict_set (username user) user users)
  end.

Fixpoint ldap_users_loop (rows : list raw_attributes) (users : dict User)
    : result (dict User) :=
  match rows with
  | [] => Ok users
  | row :: rows' =>
      users' ← ldap_user_row row users;
      ldap_users_loop rows' users'
  end.

(** The body of the loop over the values of the member attribute. *)
Definition ldap_member (member : string) (users : dict User)
    (members : dict unit) : result (dict unit) :=
  member ← decode_utf8 member;
  member ← index (split ","%char member) 0;
  member ← index (split "="%char member) 1;
  if list_in member ignore_users_list then Ok members
  else
    member ← index (split "@"%char member) 0;
    if negb (dict_in member users) then Ok members
    else Ok (dict_set member tt members).

Fixpoint ldap_members_loop (raw : list string) (users : dict User)
    (members : dict unit) : result (dict unit) :=
  match raw with
  | [] => Ok members
  | member :: raw' =>
      members' ← ldap_member member users members;
      ldap_members_loop raw' users members'
  end.

(** [attr.get(name)] used as a condition: present and not empty. *)
Definition attr_truthy (attr : raw_attributes) (name : string) : bool :=
  match dict_get name attr with
  | None | Some [] => false
  | Some (_ :: _) => true
  end.

(** The body of the loop over the rows of the group search. *)
Definition ldap_group_row (attr : raw_attributes) (users : dict User)
    (groups : dict Group) : result (dict Group) :=
  if negb (attr_truthy attr "uniqueIdentifier") then Ok groups
  else
    members ←
      (if attr_truthy attr (attr_group_members config)
       then ldap_members_loop
              (default [] (dict_get (attr_group_members config) attr)) users []
       else Ok []);
    g_name ← fetch_required_string attr (attr_group_name config);
    g_description ← fetch_string attr (attr_group_description config);
    let group := Group.mk g_name g_description members in
    if list_in (Group.name group) ignore_groups_list then Ok groups
    else Ok (dict_set (Group.name group) group groups).

Fixpoint ldap_groups_loop (rows : list raw_attributes) (users : dict User)
    (groups : dict Group) : result (dict Group) :=
  match rows with
  | [] => Ok groups
  | row :: rows' =>
      groups' ← ldap_group_row row users groups;
      ldap_groups_loop rows' users groups'
  end.

(** [fetch_ldap], given what [conn.response] holds after the user
    search and after the group search ([None] when a search failed). *)
Definition fetch_ldap (user_response group_response : option (list raw_attributes))
    : result (dict User * dict Group) :=
  match user_response with
  | None => Raise (Exception "user search failed")
  | Some rows =>
      users ← ldap_users_loop rows [];
      match group_response with
      | None => Raise (Exception "group search failed")
      | Some rows =>
          groups ← ldap_groups_loop rows users [];
          Ok (users, groups)
      end
  end.
End fetch_ldap.
End loader.

(** * Specification vocabulary *)

(** A snapshot mapping is keyed by the entity it holds: what both loaders
    establish with [users[user.username] = user] and
    [groups[group.name] = group]. *)
Definition users_keyed (users : dict User) : Prop :=
  dict_wf users ∧ ∀ k u, (k, u) ∈ users → username u = k.

Definition groups_keyed (groups : dict Group) : Prop :=
  dict_wf groups ∧ ∀ k g, (k, g) ∈ groups → Group.name g = k.

(** The test [modified_users] makes on each desired user. *)
Definition user_modified (freeipa_users : dict User) (idp_user : User) : bool :=
  match dict_get (username idp_user) freeipa_users with
  | Some freeipa_user => negb (user_match idp_user freeipa_user)
  | None => false
  end.

Definition group_modified (freeipa_groups : dict Group) (idp_group : Group) : bool :=
  match dict_get (Group.name idp_group) freeipa_groups with
  | Some freeipa_group => negb (group_match idp_group freeipa_group)
  | None => false
  end.

(** A current user with one optional field replaced. *)
Definition set_email (e : option string) (u : User) : User :=
  {| username := username u; name := name u; fname := fname u; lname := lname u;
     shell := shell u; uid := uid u; active := active u; email := e;
     auth_type := auth_type u; idp_name := idp_name u;
     idp_username := idp_username u |}.

Definition set_uid (i : option string) (u : User) : User :=
  {| username := username u; name := name u; fname := fname u; lname := lname u;
     shell := shell u; uid := i; active := active u; email := email u;
     auth_type := auth_type u; idp_name := idp_name u;
     idp_username := idp_username u |}.

Definition set_shell (sh : option string) (u : User) : User :=
  {| username := username u; name := name u; fname := fname u; lname := lname u;
     shell := sh; uid := uid u; active := active u; email := email u;
     auth_type := auth_type u; idp_name := idp_name u;
     idp_username := idp_username u |}.

(** ** Scripts

    No apply function looks at what a client call returns, so what a run
    does is fixed before it starts: a script of events, played against the
    client until a call raises. *)

Definition opt_call (dry_run : bool) (c : call) : list event :=
  if dry_run then [] else [Call c].

Definition plan_user_add (user : User) (dry_run : bool) : list event :=
  [Print ("   * Adding User " +:+ username user)]
  ++ opt_call dry_run (user_add (user_kwargs_of user)).

Definition plan_user_mod (user : User) (dry_run : bool) : list event :=
  [Print ("   * Updating User " +:+ username user)]
  ++ opt_call dry_run (user_mod (user_kwargs_of user)).

Definition plan_user_del (user : User) (dry_run : bool) : list event :=
  [Print ("   * Deleting User " +:+ username user)]
  ++ opt_call dry_run (user_del (username user) false).

Definition plan_group_add (group : Group) (dry_run : bool) : list event :=
  [Print ("   * Adding Group " +:+ Group.name group)]
  ++ opt_call dry_run (group_add (Group.name group) (Group.description group))
  ++ (if len_truthy (Group.members group)
      then [Print ("     * Adding " +:+ pretty (length (Group.members group))
                   +:+ " members")]
           ++ (dict_keys (Group.members group) ≫= λ member,
                 [Print ("       * Adding member " +:+ member)]
                 ++ opt_call dry_run (group_add_member (Group.name group) member))
      else []).

(** The members [freeipa_group_mod] adds and removes when the two member
    sets differ. *)
Definition members_to_add (idpgroup freeipagroup : Group) : list string :=
  filter (λ member, dict_in member (Group.members freeipagroup) = false)
         (dict_keys (Group.members idpgroup)).

Definition members_to_remove (idpgroup freeipagroup : Group)
    (idp_users : dict User) : list string :=
  filter (λ member, dict_in member (Group.members idpgroup) = false
                    ∧ dict_in member idp_users = true)
         (dict_keys (Group.members freeipagroup)).

Definition plan_group_mod (idpgroup freeipagroup : Group) (idp_users : dict User)
    (dry_run : bool) : list event :=
  [Print ("   * Updating Group " +:+ Group.name idpgroup)]
  ++ (if negb dry_run
      then if ne (Group.description idpgroup) (Group.description freeipagroup)
           then [Call (group_mod (Group.name idpgroup) (Group.description idpgroup))]
           else []
      else [])
  ++ (if members_ne (Group.members idpgroup) (Group.members freeipagroup)
      then (members_to_add idpgroup freeipagroup ≫= λ member,
              [Print ("     * Adding member " +:+ member)]
              ++ opt_call dry_run (group_add_member (Group.name idpgroup) member))
           ++ (members_to_remove idpgroup freeipagroup idp_users ≫= λ member,
              [Print ("     * Removing member " +:+ member)]
              ++ opt_call dry_run (group_remove_member (Group.name idpgroup) member))
      else []).

Definition plan_group_del (group : Group) (dry_run : bool) : list event :=
  [Print ("   * Deleting Group " +:+ Group.name group)]
  ++ opt_call dry_run (group_del (Group.name group)).

(** A phase of [sync]: a header and one apply step for each action, or
    nothing when the action list is empty. *)
Definition plan_phase {A} (header : string) (actions : list A)
    (step : A → list event) : list event :=
  if len_truthy actions then [Print header] ++ (actions ≫= step) else [].

Definition plan_sync (idp_users : dict User) (idp_groups : dict Group)
    (freeipa_users : dict User) (freeipa_groups : dict Group)
    (dry_run : bool) : list event :=
  let new_users := users_not_in idp_users freeipa_users in
  let deleted_users := users_not_in freeipa_users idp_users in
  let new_groups := groups_not_in idp_groups freeipa_groups in
  let deleted_groups := groups_not_in freeipa_groups idp_groups in
  let updated_users := modified_users idp_users freeipa_users in
  let updated_groups := modified_groups idp_groups freeipa_groups in
  (if dry_run then [Print "== DRY RUN =="] else [])
  ++ plan_phase (" * Adding " +:+ pretty (length new_users) +:+ " new users")
       new_users (λ user, plan_user_add user dry_run)
  ++ plan_phase (" * Deleting " +:+ pretty (length deleted_users) +:+ " users")
       deleted_users (λ user, plan_user_del user dry_run)
  ++ plan_phase (" * Adding " +:+ pretty (length new_groups) +:+ " new groups")
       new_groups (λ group, plan_group_add group dry_run)
  ++ plan_phase (" * Deleting " +:+ pretty (length deleted_groups) +:+ " groups")
       deleted_groups (λ group, plan_group_del group dry_run)
  ++ plan_phase ("  * Updating " +:+ pretty (length updated_users) +:+ " users")
       updated_users (λ user, plan_user_mod user dry_run)
  ++ plan_phase ("  * Updating " +:+ pretty (length updated_groups) +:+ " groups")
       updated_groups (λ group,
         match dict_get (Group.name group) freeipa_groups with
         | Some freeipagroup => plan_group_mod group freeipagroup idp_users dry_run
         | None => []
         end)
  ++ [Print "Sync Complete"].

Section exec.
Context {cstate : Type} (rpc : call → cstate → result cstate).

(** Playing a script against the client. *)
Fixpoint exec (p : list event) : run cstate unit :=
match p with
| [] => mret tt
| Print line :: p' => print line ;; exec p'
| Call c :: p' => invoke rpc c ;; exec p'
end.

(** A computation that does what a script says, from every client state. *)
Definition follows (m : run cstate unit) (p : list event) : Prop :=
∀ s, m s = exec p s.

(** What it means for an apply function, given its [dry_run] flag last, to
honour dry-run mode: no call and an untouched client in dry-run mode,
and the report of the real run is the report of the dry run, cut short
only if a client call raises. *)
Definition dry_run_faithful (f : bool → run cstate unit) : Prop :=
∀ s,
calls (log (f true s)) = []
∧ ret (f true s) = Ok (tt, s)
∧ prints (log (f false s)) `prefix_of` prints (log (f true s))
∧ (∀ s', ret (f false s) = Ok (tt, s') →
     prints (log (f false s)) = prints (log (f true s))).
End exec.

(** ** What a run did *)

(** The members a run removed from a group, and the members it added. *)
Definition removed (t : list event) : list string :=
  omap (λ e, match e with
             | Call (group_remove_member _ member) => Some member
             | _ => None
             end) t.

Definition added (t : list event) : list string :=
  omap (λ e, match e with
             | Call (group_add_member _ member) => Some member
             | _ => None
             end) t.

(** The calls [freeipa_group_mod] makes in a real run that is not cut short. *)
Definition group_mod_calls (idpgroup freeipagroup : Group) (idp_users : dict User)
    : list call :=
  (if ne (Group.description idpgroup) (Group.description freeipagroup)
   then [group_mod (Group.name idpgroup) (Group.description idpgroup)]
   else [])
  ++ (if members_ne (Group.members idpgroup) (Group.members freeipagroup)
      then (group_add_member (Group.name idpgroup)
              <$> members_to_add idpgroup freeipagroup)
           ++ (group_remove_member (Group.name idpgroup)
              <$> members_to_remove idpgroup freeipagroup idp_users)
      else []).

(** The calls [freeipa_group_add] makes in such a run. *)
Definition group_add_calls (group : Group) : list call :=
  group_add (Group.name group) (Group.description group)
  :: (group_add_member (Group.name group) <$> dict_keys (Group.members group)).

(** The membership delta of a run brings the current member set to the
    desired one. *)
Definition converges (idpgroup freeipagroup : Group) (t : list event) : Prop :=
  list_to_set (dict_keys (Group.members idpgroup))
  =@{gset string}
  (list_to_set (dict_keys (Group.members freeipagroup)) ∖ list_to_set (removed t))
  ∪ list_to_set (added t).

(** The order of the apply phase as a property of the calls of a run:
    every call that adds a user or a group comes before every call that
    deletes one. *)
Definition is_add_action (c : call) : Prop :=
  match c with
  | user_add _ | group_add _ _ => True
  | _ => False
  end.

Definition is_delete_action (c : call) : Prop :=
  match c with
  | user_del _ _ | group_del _ => True
  | _ => False
  end.

Definition adds_before_deletes (cs : list call) : Prop :=
  ∀ i j c d, cs !! i = Some c → cs !! j = Some d →
             is_add_action c → is_delete_action d → i < j.

(** ** Sample data *)

(** A client that accepts every call. *)
Definition accept : call → unit → result unit := λ _ s, Ok s.

Definition sample_user (n : string) (sh : option string) : User :=
  {| username := n; name := n; fname := "Given"; lname := "Family";
     shell := sh; uid := None; active := true; email := None;
     auth_type := "idp"; idp_name := "corp"; idp_username := n |}.

Definition members_of (ms : list string) : dict unit := (λ m, (m, tt)) <$> ms.

Definition sample_group (n : string) (d : option string) (ms : list string) : Group :=
  Group.mk n d (members_of ms).

Definition users_of (us : list User) : dict User := (λ u, (username u, u)) <$> us.
Definition groups_of (gs : list Group) : dict Group := (λ g, (Group.name g, g)) <$> gs.

(** ** Rows of the user search *)

(** A row that yields a user named [n]: its username attribute is there,
    is not on the ignore list, and [n] is what stands before its first [@]. *)
Definition names_user (decode : string → option string) (config : config)
    (row : raw_attributes) (n : string) : Prop :=
  ∃ idp_username,
    fetch_string decode row (Some (attr_username config)) = Ok (Some idp_username)
    ∧ list_in idp_username (ignore_users_list config) = false
    ∧ split "@"%char idp_username !! 0 = Some n.

(** What the loader guarantees of a group it stores under key [k]. *)
Definition group_ok (users : dict User) (k : string) (g : Group) : Prop :=
  Group.name g = k
  ∧ dict_wf (Group.members g)
  ∧ ∀ member, member ∈ dict_keys (Group.members g) → member ∈ dict_keys users.

(** A row of the group search that yields a group named [n]. *)
Definition names_group (decode : string → option string) (config : config)
    (row : raw_attributes) (n : string) : Prop :=
  attr_truthy row "uniqueIdentifier" = true
  ∧ fetch_required_string decode row (attr_group_name config) = Ok n
  ∧ list_in n (ignore_groups_list config) = false.

(** ** Sample directory *)

Definition sample_config : config :=
  {| ignore_users := "root,admin"; ignore_groups := "wheel";
     attr_active_values := "Y,1"; attr_username := "uid";
     attr_fname := "givenName"; attr_lname := "sn"; attr_name := "cn";
     attr_email := Some "mail"; attr_uid := None; attr_shell := None;
     attr_active := "active"; attr_group_members := "member";
     attr_group_name := "cn"; attr_group_description := Some "description";
     freeipa_idp_name := "corp" |}.

Definition sample_user_row (u : string) : raw_attributes :=
  [("uid", [u]); ("givenName", ["Given"]); ("sn", ["Family"]); ("cn", [u]);
   ("active", ["Y"])].

Definition sample_group_row (n : string) (ms : list string) : raw_attributes :=
  [("uniqueIdentifier", ["1"]); ("cn", [n]); ("member", ms)].

(** * The FreeIPA loader *)

(** A row of [client.user_find()["result"]] or
    [client.group_find()["result"]]: python_freeipa gives every attribute
    as a list of [str]; [nsaccountlock], which user rows carry, is a
    [bool]. *)
Record freeipa_row := mk_freeipa_row {
  row_attrs : dict (list string);
  row_nsaccountlock : option bool;
}.

(** [fetch_string] on such a row: the value found is a list of [str], so
    there is nothing to decode and nothing is raised. *)
Definition fetch_string_str (values : dict (list string)) (name : option string)
    : option string :=
  match name with
  | None => None
  | Some name =>
      if bool_decide (String.length name = 0) then None
      else match dict_get name values with
           | None | Some [] => None
           | Some (val :: _) => Some val
           end
  end.

Definition fetch_required_string_str (values : dict (list string)) (name : string)
    : result string :=
  if bool_decide (String.length name = 0)
  then Raise (Exception "name must have length greater than 0")
  else match fetch_string_str values (Some name) with
       | None => Raise (Exception (name +:+ " does not exist"))
       | Some val => Ok val
       end.

(** The keys of the [freeipa] section that [fetch_freeipa] reads. *)
Record freeipa_config := mk_freeipa_config {
  freeipa_ignore_users : string;
  freeipa_ignore_groups : string;
}.

Section fetch_freeipa.
Context (config : freeipa_config).

Definition freeipa_ignore_users_list : list string :=
  split ","%char (freeipa_ignore_users config).
Definition freeipa_ignore_groups_list : list string :=
  split ","%char (freeipa_ignore_groups config).

(** [row["nsaccountlock"]] *)
Definition nsaccountlock_of (row : freeipa_row) : result bool :=
  match row_nsaccountlock row with
  | Some lock => Ok lock
  | None => Raise (KeyError "nsaccountlock")
  end.

(** The body of the loop over the rows of [client.user_find()]. *)
Definition freeipa_user_row (row : freeipa_row) (users : dict User)
    : result (dict User) :=
  let attrs := row_attrs row in
  let u_fname := default "" (fetch_string_str attrs (Some "givenname")) in
  let u_auth_type :=
    default "password" (fetch_string_str attrs (Some "ipauserauthtype")) in
  let u_idp_name := default "" (fetch_string_str attrs (Some "ipaidpconfiglink")) in
  let u_idp_username := default "" (fetch_string_str attrs (Some "ipaidpsub")) in
  u_username ← fetch_required_string_str attrs "uid";
  u_lname ← fetch_required_string_str attrs "sn";
  u_name ← fetch_required_string_str attrs "cn";
  let u_email := fetch_string_str attrs (Some "mail") in
  u_uid ← fetch_required_string_str attrs "uidnumber";
  let u_shell := fetch_string_str attrs (Some "loginshell") in
  lock ← nsaccountlock_of row;
  let user :=
    {| username := u_username; fname := u_fname; lname := u_lname;
       name := u_name; email := u_email; uid := Some u_uid;
       auth_type := u_auth_type; idp_name := u_idp_name;
       idp_username := u_idp_username; shell := u_shell;
       active := if (lock : bool) then false else true |} in
  if list_in (username user) freeipa_ignore_users_list then Ok users
  else Ok (dict_set (username user) user users).

Fixpoint freeipa_users_loop (rows : list freeipa_row) (users : dict User)
    : result (dict User) :=
  match rows with
  | [] => Ok users
  | row :: rows' =>
      users' ← freeipa_user_row row users;
      freeipa_users_loop rows' users'
  end.

(** The loop over [member_user]. *)
Fixpoint freeipa_members_loop (member_user : list string) (members : dict unit)
    : dict unit :=
  match member_user with
  | [] => members
  | user :: rest =>
      if negb (list_in user freeipa_ignore_users_list)
      then freeipa_members_loop rest (dict_set user tt members)
      else freeipa_members_loop rest members
  end.

(** The body of the loop over the rows of [client.group_find()]. *)
Definition freeipa_group_row (row : freeipa_row) (groups : dict Group)
    : result (dict Group) :=
  let attrs := row_attrs row in
  let members :=
    match dict_get "member_user" attrs with
    | Some member_user => freeipa_members_loop member_user []
    | None => []
    end in
  g_name ← fetch_required_string_str attrs "cn";
  let g_description := fetch_string_str attrs (Some "description") in
  let group := Group.mk g_name g_description members in
  if list_in (Group.name group) freeipa_ignore_groups_list then Ok groups
  else Ok (dict_set (Group.name group) group groups).

Fixpoint freeipa_groups_loop (rows : list freeipa_row) (groups : dict Group)
    : result (dict Group) :=
  match rows with
  | [] => Ok groups
  | row :: rows' =>
      groups' ← freeipa_group_row row groups;
      freeipa_groups_loop rows' groups'
  end.

(** [fetch_freeipa], given [client.user_find()["result"]] and
    [client.group_find()["result"]]. *)
Definition fetch_freeipa (user_find group_find : list freeipa_row)
    : result (dict User * dict Group) :=
  users ← freeipa_users_loop user_find [];
  groups ← freeipa_groups_loop group_find [];
  Ok (users, groups).
End fetch_freeipa.

(** A user row with all that [fetch_freeipa] requires of it, and a group
    row likewise. *)
Definition user_row_complete (row : freeipa_row) : Prop :=
  is_Some (fetch_string_str (row_attrs row) (Some "uid"))
  ∧ is_Some (fetch_string_str (row_attrs row) (Some "sn"))
  ∧ is_Some (fetch_string_str (row_attrs row) (Some "cn"))
  ∧ is_Some (fetch_string_str (row_attrs row) (Some "uidnumber"))
  ∧ is_Some (row_nsaccountlock row).

Definition group_row_complete (row : freeipa_row) : Prop :=
  is_Some (fetch_string_str (row_attrs row) (Some "cn")).

(** ** Sample FreeIPA data *)

Definition sample_freeipa_config : freeipa_config :=
  {| freeipa_ignore_users := "admin"; freeipa_ignore_groups := "admins,ipausers" |}.

Definition sample_freeipa_user_row (u : string) (locked : bool) : freeipa_row :=
  {| row_attrs := [("uid", [u]); ("sn", ["Family"]); ("cn", [u]);
                   ("uidnumber", ["1000"]); ("givenname", ["Given"])];
     row_nsaccountlock := Some locked |}.

Definition sample_freeipa_group_row (n : string) (ms : list string) : freeipa_row :=
  {| row_attrs := [("cn", [n]); ("member_user", ms)];
     row_nsaccountlock := None |}.

(** ** Kinds of client calls *)

Definition is_user_add_or_del (c : call) : Prop :=
  match c with
  | user_add _ | user_del _ _ => True
  | _ => False
  end.

Definition is_group_call (c : call) : Prop :=
  match c with
  | group_add _ _ | group_add_member _ _ | group_mod _ _
  | group_remove_member _ _ | group_del _ => True
  | _ => False
  end.

(** A client that refuses every call. *)
Definition reject : call → unit → result unit := λ _ _, Raise BadRequest.

(** ** What a row of the LDAP searches stands for *)

(** The user that [fetch_ldap] builds from a row of the user search. *)
Definition user_of_row (decode : string → option string) (config : config)
    (row : raw_attributes) (u : User) : Prop :=
  fetch_string decode row (Some (attr_username config)) = Ok (Some (idp_username u))
  ∧ list_in (idp_username u) (ignore_users_list config) = false
  ∧ split "@"%char (idp_username u) !! 0 = Some (username u)
  ∧ fetch_required_string decode row (attr_fname config) = Ok (fname u)
  ∧ fetch_required_string decode row (attr_lname config) = Ok (lname u)
  ∧ fetch_required_string decode row (attr_name config) = Ok (name u)
  ∧ fetch_string decode row (attr_email config) = Ok (email u)
  ∧ fetch_string decode row (attr_uid config) = Ok (uid u)
  ∧ fetch_string decode row (attr_shell config) = Ok (shell u)
  ∧ (∃ act, fetch_required_string decode row (attr_active config) = Ok act
            ∧ active u = list_in act (active_values config))
  ∧ auth_type u = "idp"
  ∧ idp_name u = freeipa_idp_name config.

(** The username a value of the member attribute stands for: the value of
    the first component of the DN, when it is not on the ignore list, up to
    its first [@]. *)
Definition member_of (decode : string → option string) (config : config)
    (raw : string) (member : string) : Prop :=
  ∃ dn rdn value,
    decode raw = Some dn
    ∧ split ","%char dn !! 0 = Some rdn
    ∧ split "="%char rdn !! 1 = Some value
    ∧ list_in value (ignore_users_list config) = false
    ∧ split "@"%char value !! 0 = Some member.

(** The group that [fetch_ldap] builds from a row of the group search,
    given the users it has loaded: the row has a [uniqueIdentifier] and a
    name that is not ignored, and the members are the usernames its member
    values stand for that are keys of the users. *)
Definition group_of_row (decode : string → option string) (config : config)
    (users : dict User) (row : raw_attributes) (g : Group) : Prop :=
  names_group decode config row (Group.name g)
  ∧ fetch_string decode row (attr_group_description config)
    = Ok (Group.description g)
  ∧ dict_wf (Group.members g)
  ∧ ∀ member,
      member ∈ dict_keys (Group.members g)
      ↔ ∃ raw, raw ∈ default [] (dict_get (attr_group_members config) row)
               ∧ member_of decode config raw member
               ∧ member ∈ dict_keys users.

(** ** What a row of the FreeIPA results stands for *)

(** The user that [fetch_freeipa] builds from a row of [user_find]. *)
Definition freeipa_user_of_row (row : freeipa_row) (u : User) : Prop :=
  let attrs := row_attrs row in
  fetch_string_str attrs (Some "uid") = Some (username u)
  ∧ fetch_string_str attrs (Some "sn") = Some (lname u)
  ∧ fetch_string_str attrs (Some "cn") = Some (name u)
  ∧ is_Some (uid u)
  ∧ fetch_string_str attrs (Some "uidnumber") = uid u
  ∧ fname u = default "" (fetch_string_str attrs (Some "givenname"))
  ∧ email u = fetch_string_str attrs (Some "mail")
  ∧ shell u = fetch_string_str attrs (Some "loginshell")
  ∧ auth_type u = default "password" (fetch_string_str attrs (Some "ipauserauthtype"))
  ∧ idp_name u = default "" (fetch_string_str attrs (Some "ipaidpconfiglink"))
  ∧ idp_username u = default "" (fetch_string_str attrs (Some "ipaidpsub"))
  ∧ ∃ lock, row_nsaccountlock row = Some lock ∧ active u = negb lock.

(** The group that [fetch_freeipa] builds from a row of [group_find]: its
    members are the [member_user] values that are not ignored users. *)
Definition freeipa_group_of_row (config : freeipa_config) (row : freeipa_row)
    (g : Group) : Prop :=
  let attrs := row_attrs row in
  fetch_string_str attrs (Some "cn") = Some (Group.name g)
  ∧ Group.description g = fetch_string_str attrs (Some "description")
  ∧ dict_wf (Group.members g)
  ∧ ∀ member,
      member ∈ dict_keys (Group.members g)
      ↔ member ∈ default [] (dict_get "member_user" attrs)
        ∧ list_in member (freeipa_ignore_users_list config) = false.

(** * [strtobool] *)

(** [str.lower] on one character of a [str] held as UTF-8: an ASCII
    capital becomes the small letter, every other byte stays.  (Outside
    ASCII [str.lower] changes characters too, but never into a letter of
    the six words below, so the test of [strtobool] is not affected.) *)
Definition lower_ascii (c : ascii) : ascii :=
  let n := nat_of_ascii c in
  if bool_decide (65 ≤ n ≤ 90) then ascii_of_nat (n + 32) else c.

Fixpoint lower (s : string) : string :=
  match s with
  | EmptyString => EmptyString
  | String c s' => String (lower_ascii c) (lower s')
  end.

Definition strtobool (val : string) : bool :=
  let val := lower val in
  if list_in val ["y"; "yes"; "t"; "true"; "on"; "1"] then true else false.

(** The other case of a letter, to say that case does not matter. *)
Definition upper_ascii (c : ascii) : ascii :=
  let n := nat_of_ascii c in
  if bool_decide (97 ≤ n ≤ 122) then ascii_of_nat (n - 32) else c.

Fixpoint upper (s : string) : string :=
  match s with
  | EmptyString => EmptyString
  | String c s' => String (upper_ascii c) (upper s')
  end.

(** ** Sample responses *)

Definition sample_user_rows : list raw_attributes :=
  [sample_user_row "bob@a.example"; sample_user_row "root"; sample_user_row "amy"].

Definition sample_group_rows : list raw_attributes :=
  [sample_group_row "eng"
     ["uid=bob@a.example,ou=people"; "uid=zed,ou=people"; "uid=root"];
   sample_group_row "wheel" ["uid=amy,ou=people"];
   sample_group_row "ops" ["uid=amy,ou=people"]].

Definition sample_user_find : list freeipa_row :=
  [sample_freeipa_user_row "admin" false; sample_freeipa_user_row "bob" false;
   sample_freeipa_user_row "carol" true].

Definition sample_group_find : list freeipa_row :=
  [sample_freeipa_group_row "admins" ["admin"];
   sample_freeipa_group_row "eng" ["admin"; "bob"; "carol"]].

(** A value of the member attribute that [fetch_ldap] cannot parse: it does
    not decode, or the first component of its DN has no [=]. *)
Definition unparseable (decode : string → option string) (raw : string) : Prop :=
  decode raw = None
  ∨ ∃ dn rdn, decode raw = Some dn
              ∧ split ","%char dn !! 0 = Some rdn
              ∧ split "="%char rdn !! 1 = None.

(** A decoder that fails on one value and is the identity on the others,
    as [bytes.decode("utf-8")] fails on bytes that are not UTF-8. *)
Definition decode_except (bad raw : string) : option string :=
  if String.eqb raw bad then None else Some raw.

(** * Facts about dictionaries *)

Section dict_facts.
Context {V : Type}.
Implicit Types (d : dict V) (k : string) (v : V).

Lemma dict_in_true k d : dict_in k d = true ↔ k ∈ dict_keys d.
Proof. unfold dict_in. by rewrite bool_decide_eq_true. Qed.

Lemma dict_in_false k d : dict_in k d = false ↔ k ∉ dict_keys d.
Proof. unfold dict_in. by rewrite bool_decide_eq_false. Qed.

Lemma dict_get_None k d : dict_get k d = None ↔ k ∉ dict_keys d.
Proof.
  induction d as [|[k' v'] d IH]; simpl.
  - split; [intros _; apply not_elem_of_nil | done].
  - rewrite not_elem_of_cons. destruct (decide (k = k')); naive_solver.
Qed.

Lemma dict_get_is_Some k d : is_Some (dict_get k d) ↔ k ∈ dict_keys d.
Proof.
  rewrite <-not_eq_None_Some, dict_get_None.
  split; [apply dec_stable | by intros ? ?].
Qed.

Lemma dict_get_Some_elem k v d : dict_get k d = Some v → (k, v) ∈ d.
Proof.
  induction d as [|[k' v'] d IH]; simpl; [done|].
  destruct (decide (k = k')) as [->|]; intros ?; simplify_eq.
  - apply list_elem_of_here.
  - apply list_elem_of_further; auto.
Qed.

Lemma dict_elem_key k v d : (k, v) ∈ d → k ∈ dict_keys d.
Proof. intros H. apply (list_elem_of_fmap_2 fst) in H. exact H. Qed.

Lemma dict_elem_value k v d : (k, v) ∈ d → v ∈ dict_values d.
Proof. intros H. apply (list_elem_of_fmap_2 snd) in H. exact H. Qed.

Lemma dict_value_elem v d : v ∈ dict_values d → ∃ k, (k, v) ∈ d.
Proof.
  intros ([k v'] & -> & H)%list_elem_of_fmap. by exists k.
Qed.

(** With distinct keys, [get] finds every entry, not only the first. *)
Lemma dict_elem_get k v d : dict_wf d → (k, v) ∈ d → dict_get k d = Some v.
Proof.
  unfold dict_wf. induction d as [|[k' v'] d IH]; simpl.
  - by intros _ ?%not_elem_of_nil.
  - intros [Hk Hd]%NoDup_cons [?|Hin]%elem_of_cons; simplify_eq.
    + by rewrite decide_True.
    + rewrite decide_False; [auto|].
      intros ->. by apply Hk, (dict_elem_key _ v).
Qed.

Lemma dict_set_keys k v d k' :
  k' ∈ dict_keys (dict_set k v d) ↔ k' = k ∨ k' ∈ dict_keys d.
Proof.
  induction d as [|[k0 v0] d IH]; simpl.
  - rewrite list_elem_of_singleton. set_solver.
  - destruct (decide (k = k0)) as [->|]; simpl; set_solver.
Qed.

Lemma dict_set_elem k v d k' v' :
  (k', v') ∈ dict_set k v d → (k' = k ∧ v' = v) ∨ (k', v') ∈ d.
Proof.
  induction d as [|[k0 v0] d IH]; simpl.
  - intros ?%list_elem_of_singleton. simplify_eq. by left.
  - destruct (decide (k = k0)) as [->|].
    + intros [?|?]%elem_of_cons; simplify_eq; [by left|].
      right. by apply list_elem_of_further.
    + intros [?|?]%elem_of_cons; simplify_eq.
      * right. apply list_elem_of_here.
      * destruct IH as [?|?]; [done|by left|].
        right. by apply list_elem_of_further.
Qed.

Lemma dict_set_wf k v d : dict_wf d → dict_wf (dict_set k v d).
Proof.
  unfold dict_wf. induction d as [|[k0 v0] d IH]; simpl.
  - intros _. apply NoDup_singleton.
  - intros [Hk Hd]%NoDup_cons. destruct (decide (k = k0)) as [->|]; simpl.
    + by apply NoDup_cons.
    + apply NoDup_cons. split; [|auto].
      fold (dict_keys (dict_set k v d)). rewrite dict_set_keys. naive_solver.
Qed.

Lemma dict_wf_nil : dict_wf (@nil (string * V)).
Proof. apply NoDup_nil_2. Qed.
End dict_facts.

(** [a == b] on well-formed dictionaries used as sets is set equality. *)
Lemma members_ne_false (a b : dict unit) :
  dict_wf a → dict_wf b →
  members_ne a b = false ↔
  list_to_set (dict_keys a) =@{gset string} list_to_set (dict_keys b).
Proof.
  intros Ha Hb. unfold members_ne, dict_eqb.
  rewrite negb_false_iff, andb_true_iff, bool_decide_eq_true, forallb_forall.
  split.
  - intros [Hlen Hsub].
    assert (∀ k, k ∈ dict_keys a → k ∈ dict_keys b) as Hincl.
    { intros k ([k' []] & -> & Hin)%list_elem_of_fmap.
      apply list_elem_of_In, Hsub in Hin. simpl in Hin.
      apply dict_get_is_Some. simpl. destruct (dict_get k' b); [by eexists|done]. }
    assert (dict_keys a ≡ₚ dict_keys b) as Hperm.
    { apply submseteq_length_Permutation; [by apply NoDup_submseteq|].
      unfold dict_keys. rewrite !length_fmap. lia. }
    apply set_eq. intros k. rewrite !elem_of_list_to_set. by rewrite Hperm.
  - intros Heq.
    assert (∀ k, k ∈ dict_keys a ↔ k ∈ dict_keys b) as Hiff.
    { intros k. rewrite <-!(elem_of_list_to_set (C:=gset string)). rewrite Heq. done. }
    assert (dict_keys a ≡ₚ dict_keys b) as Hperm.
    { apply NoDup_Permutation; done. }
    split.
    + apply Permutation_length in Hperm. unfold dict_keys in Hperm.
      by rewrite !length_fmap in Hperm.
    + intros [k []] Hin%list_elem_of_In. simpl.
      apply dict_elem_key, Hiff, dict_get_is_Some in Hin.
      destruct Hin as [[] ->]. done.
Qed.

Lemma members_ne_true (a b : dict unit) :
  dict_wf a → dict_wf b →
  members_ne a b = true ↔
  list_to_set (dict_keys a) ≠@{gset string} list_to_set (dict_keys b).
Proof.
  intros Ha Hb. rewrite <-members_ne_false by done.
  destruct (members_ne a b); naive_solver.
Qed.

Lemma members_ne_refl (a : dict unit) : members_ne a a = false.
Proof.
  unfold members_ne, dict_eqb.
  rewrite negb_false_iff, andb_true_iff, bool_decide_eq_true, forallb_forall.
  split; [done|]. intros [k []] Hin%list_elem_of_In. simpl.
  apply dict_elem_key, dict_get_is_Some in Hin. destruct Hin as [[] ->]. done.
Qed.

(** * The diff engine *)

Lemma filter_none {A} (P : A → Prop) `{∀ x, Decision (P x)} (l : list A) :
  (∀ x, x ∈ l → ¬ P x) → filter P l = [].
Proof.
  induction l as [|x l IH]; intros Hl; [done|].
  rewrite filter_cons_False; [|apply Hl, list_elem_of_here].
  apply IH. intros y Hy. by apply Hl, list_elem_of_further.
Qed.

Lemma modified_users_loop_filter idp_values freeipa_users users :
  modified_users_loop idp_values freeipa_users users
  = users ++ filter (λ u, user_modified freeipa_users u = true) idp_values.
Proof.
  revert users. induction idp_values as [|u rest IH]; intros users; simpl.
  - by rewrite app_nil_r.
  - unfold user_modified at 2.
    destruct (dict_get (username u) freeipa_users) as [c|] eqn:Hget.
    + destruct (user_match u c) eqn:Hm.
      * rewrite IH, filter_cons_False; [done|].
        unfold user_modified. by rewrite Hget, Hm.
      * rewrite IH, filter_cons_True, <-app_assoc; [done|].
        unfold user_modified. by rewrite Hget, Hm.
    + rewrite IH, filter_cons_False; [done|].
      unfold user_modified. by rewrite Hget.
Qed.

Lemma modified_users_filter idp_users freeipa_users :
  modified_users idp_users freeipa_users
  = filter (λ u, user_modified freeipa_users u = true) (dict_values idp_users).
Proof. unfold modified_users. by rewrite modified_users_loop_filter. Qed.

Lemma modified_groups_loop_filter idp_values freeipa_groups groups :
  modified_groups_loop idp_values freeipa_groups groups
  = groups ++ filter (λ g, group_modified freeipa_groups g = true) idp_values.
Proof.
  revert groups. induction idp_values as [|g rest IH]; intros groups; simpl.
  - by rewrite app_nil_r.
  - unfold group_modified at 2.
    destruct (dict_get (Group.name g) freeipa_groups) as [c|] eqn:Hget.
    + destruct (group_match g c) eqn:Hm.
      * rewrite IH, filter_cons_False; [done|].
        unfold group_modified. by rewrite Hget, Hm.
      * rewrite IH, filter_cons_True, <-app_assoc; [done|].
        unfold group_modified. by rewrite Hget, Hm.
    + rewrite IH, filter_cons_False; [done|].
      unfold group_modified. by rewrite Hget.
Qed.

Lemma modified_groups_filter idp_groups freeipa_groups :
  modified_groups idp_groups freeipa_groups
  = filter (λ g, group_modified freeipa_groups g = true) (dict_values idp_groups).
Proof. unfold modified_groups. by rewrite modified_groups_loop_filter. Qed.

(** ** User equality *)

Lemma ne_false {A} `{EqDecision A} (a b : A) : ne a b = false ↔ a = b.
Proof. unfold ne. by rewrite negb_false_iff, bool_decide_eq_true. Qed.

Lemma ne_refl {A} `{EqDecision A} (a : A) : ne a a = false.
Proof. by apply ne_false. Qed.

Lemma optional_ne_false (a b : option string) :
  is_not_None a && ne a b = false ↔ a = None ∨ a = b.
Proof.
  rewrite andb_false_iff, ne_false. destruct a; simpl; naive_solver.
Qed.

Lemma guard_true (b rest : bool) :
  (if b then false else rest) = true ↔ b = false ∧ rest = true.
Proof. destruct b; naive_solver. Qed.

Lemma user_match_true (d c : User) :
  user_match d c = true ↔
    fname d = fname c ∧ lname d = lname c ∧ name d = name c ∧
    (email d = None ∨ email d = email c) ∧
    active d = active c ∧ auth_type d = auth_type c ∧
    idp_name d = idp_name c ∧ idp_username d = idp_username c ∧
    (uid d = None ∨ uid d = uid c) ∧
    (shell d = None ∨ shell d = shell c).
Proof.
  unfold user_match.
  rewrite !guard_true, !ne_false, !optional_ne_false. naive_solver.
Qed.

Lemma user_match_refl (u : User) : user_match u u = true.
Proof. apply user_match_true. naive_solver. Qed.

Lemma group_match_refl (g : Group) : group_match g g = true.
Proof. unfold group_match. by rewrite ne_refl, members_ne_refl. Qed.

(** C4: [user_match] compares familyName, givenName, displayName, active,
    authType, federationProviderName and federationSubjectId exactly, and
    email, numericId and shell only when the desired value is not null:
    when the desired value is null, the current value is not looked at. *)
Theorem user_match_directional (desired current : User) :
  (user_match desired current = true ↔
     lname desired = lname current ∧
     fname desired = fname current ∧
     name desired = name current ∧
     active desired = active current ∧
     auth_type desired = auth_type current ∧
     idp_name desired = idp_name current ∧
     idp_username desired = idp_username current ∧
     (email desired = None ∨ email desired = email current) ∧
     (uid desired = None ∨ uid desired = uid current) ∧
     (shell desired = None ∨ shell desired = shell current))
  ∧ (email desired = None →
     ∀ e, user_match desired (set_email e current) = user_match desired current)
  ∧ (uid desired = None →
     ∀ i, user_match desired (set_uid i current) = user_match desired current)
  ∧ (shell desired = None →
     ∀ sh, user_match desired (set_shell sh current) = user_match desired current).
Proof.
  split; [rewrite user_match_true; naive_solver|].
  repeat split; intros Hnone x; unfold user_match; simpl; by rewrite Hnone.
Qed.

(** ** Partition of the usernames *)

Section keyed.
Context (d : dict User) (Hd : users_keyed d).

Lemma keyed_get (u : User) : u ∈ dict_values d → dict_get (username u) d = Some u.
Proof using Hd.
destruct Hd as [Hwf Hkey]. intros [k Hin]%dict_value_elem.
rewrite (Hkey _ _ Hin). by apply dict_elem_get.
Qed.

Lemma keyed_get_username (n : string) (u : User) :
dict_get n d = Some u → username u = n ∧ u ∈ dict_values d.
Proof using Hd.
destruct Hd as [Hwf Hkey]. intros Hin%dict_get_Some_elem.
split; [by apply Hkey | by apply (dict_elem_value n)].
Qed.

Lemma keyed_usernames : username <$> dict_values d = dict_keys d.
Proof using Hd.
destruct Hd as [_ Hkey]. unfold dict_values, dict_keys.
rewrite <-list_fmap_compose. apply Forall_fmap_ext, Forall_forall.
intros [k u] Hin. simpl. by apply Hkey.
Qed.

Lemma keyed_filter_elem (P : User → Prop) `{∀ u, Decision (P u)} (n : string) :
n ∈ username <$> filter P (dict_values d) ↔ ∃ u, dict_get n d = Some u ∧ P u.
Proof using Hd.
rewrite list_elem_of_fmap. split.
- intros (u & -> & [HP Hu]%list_elem_of_filter).
  exists u. split; [by apply keyed_get | done].
- intros (u & [<- Hu]%keyed_get_username & HP).
  exists u. split; [done|]. by apply list_elem_of_filter.
Qed.

Lemma keyed_filter_NoDup (P : User → Prop) `{∀ u, Decision (P u)} :
NoDup (username <$> filter P (dict_values d)).
Proof using Hd.
assert (NoDup (username <$> dict_values d)) as Hnd.
{ rewrite keyed_usernames. apply Hd. }
apply NoDup_fmap_2_strong.
- intros x y [_ Hx]%list_elem_of_filter [_ Hy]%list_elem_of_filter Heq.
  apply keyed_get in Hx, Hy. rewrite Heq in Hx. congruence.
- apply NoDup_filter. by apply NoDup_fmap_1 in Hnd.
Qed.
End keyed.

Lemma users_not_in_elem (list1 list2 : dict User) (n : string) :
  users_keyed list1 →
  n ∈ username <$> users_not_in list1 list2
  ↔ n ∈ dict_keys list1 ∧ n ∉ dict_keys list2.
Proof.
  intros H1. unfold users_not_in. rewrite keyed_filter_elem by done.
  rewrite <-dict_get_is_Some. split.
  - intros (u & Hget & Hnot%dict_in_false).
    destruct (keyed_get_username _ H1 _ _ Hget) as [<- _]. by eauto.
  - intros [[u Hget] Hnot]. exists u. split; [done|].
    apply dict_in_false. by destruct (keyed_get_username _ H1 _ _ Hget) as [-> _].
Qed.

Lemma modified_users_elem (idp_users freeipa_users : dict User) (n : string) :
  users_keyed idp_users →
  n ∈ username <$> modified_users idp_users freeipa_users
  ↔ ∃ d c, dict_get n idp_users = Some d ∧ dict_get n freeipa_users = Some c
           ∧ user_match d c = false.
Proof.
  intros H1. rewrite modified_users_filter, keyed_filter_elem by done.
  unfold user_modified. split.
  - intros (u & Hget & Hmod).
    destruct (keyed_get_username _ H1 _ _ Hget) as [<- _].
    destruct (dict_get (username u) freeipa_users) as [c|]; [|done].
    exists u, c. by apply negb_true_iff in Hmod.
  - intros (u & c & Hget & Hc & Hm). exists u. split; [done|].
    destruct (keyed_get_username _ H1 _ _ Hget) as [-> _].
    by rewrite Hc, Hm.
Qed.

(** C3: every username of either snapshot is in exactly one of four
    classes: added (absent from current), deleted (absent from desired),
    modified (in both, [user_match] fails) or untouched (in both,
    [user_match] holds); the three lists together name no user twice. *)
Theorem users_partition (desired current : dict User) (n : string) :
  users_keyed desired → users_keyed current →
  n ∈ dict_keys desired ∨ n ∈ dict_keys current →
  let to_add := username <$> users_not_in desired current in
  let to_delete := username <$> users_not_in current desired in
  let to_modify := username <$> modified_users desired current in
  NoDup (to_add ++ to_delete ++ to_modify)
  ∧ (n ∈ to_add ↔ n ∉ dict_keys current)
  ∧ (n ∈ to_delete ↔ n ∉ dict_keys desired)
  ∧ (n ∈ to_modify ↔
       ∃ d c, dict_get n desired = Some d ∧ dict_get n current = Some c
              ∧ user_match d c = false)
  ∧ (n ∉ to_add ++ to_delete ++ to_modify ↔
       ∃ d c, dict_get n desired = Some d ∧ dict_get n current = Some c
              ∧ user_match d c = true).
Proof.
  intros Hd Hc Hn to_add to_delete to_modify.
  assert (∀ m, m ∈ to_add ↔ m ∈ dict_keys desired ∧ m ∉ dict_keys current)
    as Hadd by (intros m; by apply users_not_in_elem).
  assert (∀ m, m ∈ to_delete ↔ m ∈ dict_keys current ∧ m ∉ dict_keys desired)
    as Hdel by (intros m; by apply users_not_in_elem).
  assert (∀ m, m ∈ to_modify ↔
            ∃ d c, dict_get m desired = Some d ∧ dict_get m current = Some c
                   ∧ user_match d c = false)
    as Hmod by (intros m; by apply modified_users_elem).
  assert (∀ m, m ∈ to_modify → m ∈ dict_keys desired ∧ m ∈ dict_keys current)
    as Hmod_both.
  { intros m (d & c & Hgd & Hgc & _)%Hmod.
    rewrite <-!dict_get_is_Some, Hgd, Hgc. by eauto. }
  split; [|split; [|split; [|split]]].
  - rewrite !NoDup_app. repeat split.
    + unfold to_add, users_not_in. by apply keyed_filter_NoDup.
    + intros m Hm [Hm'|Hm']%elem_of_app.
      * apply Hadd in Hm. apply Hdel in Hm'. tauto.
      * apply Hadd in Hm. apply Hmod_both in Hm'. tauto.
    + unfold to_delete, users_not_in. by apply keyed_filter_NoDup.
    + intros m Hm Hm'. apply Hdel in Hm. apply Hmod_both in Hm'. tauto.
    + unfold to_modify. rewrite modified_users_filter.
      by apply keyed_filter_NoDup.
  - rewrite Hadd. tauto.
  - rewrite Hdel. tauto.
  - apply Hmod.
  - rewrite !not_elem_of_app, Hadd, Hdel, Hmod. split.
    + intros (Hna & Hnd & Hnm).
      assert (n ∈ dict_keys desired) as [d Hgd]%dict_get_is_Some.
      { destruct (decide (n ∈ dict_keys desired)); [done|]. tauto. }
      assert (n ∈ dict_keys current) as [c Hgc]%dict_get_is_Some.
      { destruct (decide (n ∈ dict_keys current)); [done|]. tauto. }
      exists d, c. repeat split; [done..|].
      destruct (user_match d c) eqn:Hm; [done|].
      exfalso. apply Hnm. by exists d, c.
    + intros (d & c & Hgd & Hgc & Hm).
      assert (n ∈ dict_keys desired) by (apply dict_get_is_Some; eauto).
      assert (n ∈ dict_keys current) by (apply dict_get_is_Some; eauto).
      repeat split; [tauto..|].
      intros (d' & c' & Hgd' & Hgc' & Hm'). congruence.
Qed.

(** ** Diffing a snapshot against itself *)

Lemma users_not_in_self (users : dict User) :
  users_keyed users → users_not_in users users = [].
Proof.
  intros Hk. apply filter_none. intros u Hu Hnot%dict_in_false.
  apply Hnot, dict_get_is_Some. rewrite (keyed_get _ Hk) by done. by eauto.
Qed.

Lemma modified_users_self (users : dict User) :
  users_keyed users → modified_users users users = [].
Proof.
  intros Hk. rewrite modified_users_filter. apply filter_none.
  intros u Hu. unfold user_modified.
  rewrite (keyed_get _ Hk), user_match_refl by done. done.
Qed.

Lemma groups_keyed_get (groups : dict Group) (g : Group) :
  groups_keyed groups → g ∈ dict_values groups →
  dict_get (Group.name g) groups = Some g.
Proof.
  intros [Hwf Hkey] [k Hin]%dict_value_elem.
  rewrite (Hkey _ _ Hin). by apply dict_elem_get.
Qed.

Lemma groups_not_in_self (groups : dict Group) :
  groups_keyed groups → groups_not_in groups groups = [].
Proof.
  intros Hk. apply filter_none. intros g Hg Hnot%dict_in_false.
  apply Hnot, dict_get_is_Some. rewrite groups_keyed_get by done. by eauto.
Qed.

Lemma modified_groups_self (groups : dict Group) :
  groups_keyed groups → modified_groups groups groups = [].
Proof.
  intros Hk. rewrite modified_groups_filter. apply filter_none.
  intros g Hg. unfold group_modified.
  rewrite groups_keyed_get, group_match_refl by done. done.
Qed.

(** * Runs and scripts *)

Section exec_facts.
Context {cstate : Type} (rpc : call → cstate → result cstate).
Implicit Types (p q : list event) (s : cstate) (m : run cstate unit).

Lemma reply_eta {A} (r : reply cstate A) : Reply (log r) (ret r) = r.
Proof. by destruct r. Qed.

Lemma bind_unfold {A B} (m : run cstate A) (k : A → run cstate B) s :
(m ≫= k) s = match ret (m s) with
             | Ok (a, s') => Reply (log (m s) ++ log (k a s')) (ret (k a s'))
             | Raise e => Reply (log (m s)) (Raise e)
             end.
Proof. done. Qed.

Lemma exec_print line p s :
exec rpc (Print line :: p) s
= Reply (Print line :: log (exec rpc p s)) (ret (exec rpc p s)).
Proof. done. Qed.

Lemma exec_call c p s :
exec rpc (Call c :: p) s
= match rpc c s with
  | Ok s' => Reply (Call c :: log (exec rpc p s')) (ret (exec rpc p s'))
  | Raise e => Reply [Call c] (Raise e)
  end.
Proof. simpl. rewrite bind_unfold. unfold invoke. simpl. by destruct (rpc c s). Qed.

Lemma exec_app p q s :
exec rpc (p ++ q) s = (exec rpc p ;; exec rpc q) s.
Proof.
revert s. induction p as [|[line|c] p IH]; intros s.
- rewrite bind_unfold. simpl. by rewrite reply_eta.
- rewrite <-app_comm_cons, exec_print, IH, !bind_unfold, exec_print. simpl.
  by destruct (ret (exec rpc p s)) as [[[] s']|e].
- rewrite <-app_comm_cons, exec_call, bind_unfold, exec_call.
  destruct (rpc c s) as [s1|e]; simpl; [|done].
  rewrite IH, bind_unfold.
  by destruct (ret (exec rpc p s1)) as [[[] s']|e].
Qed.

(** The log of a run is a prefix of its script ... *)
Lemma exec_prefix p s : log (exec rpc p s) `prefix_of` p.
Proof.
revert s. induction p as [|[line|c] p IH]; intros s.
- done.
- rewrite exec_print. simpl. by apply prefix_cons.
- rewrite exec_call. destruct (rpc c s) as [s'|e]; simpl.
  + by apply prefix_cons.
  + apply prefix_cons, prefix_nil.
Qed.

(** ... and the whole script when the run returns. *)
Lemma exec_returns p s s' :
ret (exec rpc p s) = Ok (tt, s') → log (exec rpc p s) = p.
Proof.
revert s. induction p as [|[line|c] p IH]; intros s.
- done.
- rewrite exec_print. simpl. intros Hr. f_equal. eauto.
- rewrite exec_call. destruct (rpc c s) as [s1|e]; simpl; [|done].
  intros Hr. f_equal. eauto.
Qed.

(** A script without calls runs to its end and leaves the client alone. *)
Lemma exec_no_calls p s : calls p = [] → exec rpc p s = Reply p (Ok (tt, s)).
Proof.
induction p as [|[line|c] p IH]; intros Hc; [done| |done].
rewrite exec_print, IH by done. done.
Qed.

(** A script raises only what a client call raised. *)
Lemma exec_raises p s e : ret (exec rpc p s) = Raise e → ∃ c s0, rpc c s0 = Raise e.
Proof.
revert s. induction p as [|[line|c] p IH]; intros s.
- done.
- rewrite exec_print. simpl. apply IH.
- rewrite exec_call. destruct (rpc c s) as [s1|e1] eqn:Hc; simpl.
  + apply IH.
  + intros [= <-]. by eauto.
Qed.

(** The first call of a script is always attempted. *)
Lemma exec_first_call p c q s :
calls p = [] → Call c ∈ log (exec rpc (p ++ Call c :: q) s).
Proof.
intros Hp. rewrite exec_app, bind_unfold, exec_no_calls by done. cbn [ret log].
rewrite elem_of_app. right. rewrite exec_call.
destruct (rpc c s); apply list_elem_of_here.
Qed.

(** *** Composition *)

Lemma follows_print line : follows rpc (print line) [Print line].
Proof. done. Qed.

Lemma follows_invoke c : follows rpc (invoke rpc c) [Call c].
Proof. intros s. rewrite exec_call. unfold invoke. by destruct (rpc c s). Qed.

Lemma follows_bind m (k : unit → run cstate unit) p q :
follows rpc m p → follows rpc (k tt) q → follows rpc (m ≫= k) (p ++ q).
Proof.
intros Hm Hk s. rewrite exec_app, !bind_unfold, !Hm.
destruct (ret (exec rpc p s)) as [[[] s']|e]; [|done]. by rewrite Hk.
Qed.

Lemma follows_when (b : bool) m p :
follows rpc m p → follows rpc (when b m) (if b then p else []).
Proof. by destruct b. Qed.

Lemma follows_opt_call (dry_run : bool) c :
follows rpc (when (negb dry_run) (invoke rpc c)) (opt_call dry_run c).
Proof. destruct dry_run; [done|]. apply follows_invoke. Qed.

Lemma follows_early_return (dry_run : bool) c :
follows rpc (if dry_run then mret tt else invoke rpc c) (opt_call dry_run c).
Proof. destruct dry_run; [done|]. apply follows_invoke. Qed.

Lemma follows_for_each {A} (xs : list A) (body : A → run cstate unit)
  (step : A → list event) :
(∀ x, x ∈ xs → follows rpc (body x) (step x)) →
follows rpc (for_each xs body) (xs ≫= step).
Proof.
induction xs as [|x xs IH]; intros Hbody; [done|].
simpl. apply follows_bind.
- apply Hbody, list_elem_of_here.
- apply IH. intros y Hy. by apply Hbody, list_elem_of_further.
Qed.

(** A loop that acts on some elements and skips the others. *)
Lemma follows_for_each_filter {A} (P : A → Prop) `{∀ x, Decision (P x)}
  (xs : list A) (body : A → run cstate unit) (step : A → list event) :
(∀ x, P x → follows rpc (body x) (step x)) →
(∀ x, ¬ P x → follows rpc (body x) []) →
follows rpc (for_each xs body) (filter P xs ≫= step).
Proof.
intros Hyes Hno. induction xs as [|x xs IH]; [done|].
destruct (decide (P x)).
- rewrite filter_cons_True by done. simpl. by apply follows_bind; [apply Hyes|].
- rewrite filter_cons_False by done. simpl.
  by apply (follows_bind _ _ []); [apply Hno|].
Qed.

Lemma follows_phase {A} (header : string) (actions : list A)
  (body : A → run cstate unit) (step : A → list event) :
(∀ x, x ∈ actions → follows rpc (body x) (step x)) →
follows rpc (when (len_truthy actions) (print header ;; for_each actions body))
        (plan_phase header actions step).
Proof.
intros Hbody. unfold plan_phase. apply follows_when, follows_bind.
- apply follows_print.
- by apply follows_for_each.
Qed.

(** ** The apply functions follow their scripts *)

Lemma freeipa_user_add_follows user dry_run :
follows rpc (freeipa_user_add rpc user dry_run) (plan_user_add user dry_run).
Proof. apply follows_bind; [apply follows_print | apply follows_early_return]. Qed.

Lemma freeipa_user_mod_follows user dry_run :
follows rpc (freeipa_user_mod rpc user dry_run) (plan_user_mod user dry_run).
Proof. apply follows_bind; [apply follows_print | apply follows_early_return]. Qed.

Lemma freeipa_user_del_follows user dry_run :
follows rpc (freeipa_user_del rpc user dry_run) (plan_user_del user dry_run).
Proof. apply follows_bind; [apply follows_print | apply follows_early_return]. Qed.

Lemma freeipa_group_del_follows group dry_run :
follows rpc (freeipa_group_del rpc group dry_run) (plan_group_del group dry_run).
Proof. apply follows_bind; [apply follows_print | apply follows_opt_call]. Qed.

Lemma freeipa_group_add_follows group dry_run :
follows rpc (freeipa_group_add rpc group dry_run) (plan_group_add group dry_run).
Proof.
apply follows_bind; [apply follows_print|].
apply follows_bind; [apply follows_opt_call|].
apply follows_when, follows_bind; [apply follows_print|].
apply follows_for_each. intros member _.
apply follows_bind; [apply follows_print | apply follows_opt_call].
Qed.

Lemma freeipa_group_mod_follows idpgroup freeipagroup idp_users dry_run :
follows rpc (freeipa_group_mod rpc idpgroup freeipagroup idp_users dry_run)
        (plan_group_mod idpgroup freeipagroup idp_users dry_run).
Proof.
apply follows_bind; [apply follows_print|].
apply follows_bind.
{ apply follows_when, follows_when, follows_invoke. }
apply follows_when, follows_bind.
- apply follows_for_each_filter.
  + intros member ->. apply (follows_when true).
    apply follows_bind; [apply follows_print | apply follows_opt_call].
  + intros member ->%not_false_is_true. done.
- apply follows_for_each_filter.
  + intros member [-> ->]. apply (follows_when true).
    apply follows_bind; [apply follows_print | apply follows_opt_call].
  + intros member Hno.
    destruct (dict_in member (Group.members idpgroup)); [done|].
    destruct (dict_in member idp_users); [|done].
    by destruct Hno.
Qed.

Lemma modified_groups_current idp_groups freeipa_groups (g : Group) :
g ∈ modified_groups idp_groups freeipa_groups →
∃ fg, dict_get (Group.name g) freeipa_groups = Some fg ∧ group_match g fg = false.
Proof.
rewrite modified_groups_filter. intros [Hmod _]%list_elem_of_filter.
unfold group_modified in Hmod.
destruct (dict_get (Group.name g) freeipa_groups) as [fg|]; [|done].
exists fg. by apply negb_true_iff in Hmod.
Qed.

Lemma follows_index {V} (d : dict V) (key : string) (v : V)
  (k : V → run cstate unit) p :
dict_get key d = Some v → follows rpc (k v) p →
follows rpc (dict_index d key ≫= k) p.
Proof.
intros Hget Hk s. rewrite bind_unfold. unfold dict_index. rewrite Hget.
simpl. by rewrite reply_eta.
Qed.

Lemma sync_follows idp_users idp_groups freeipa_users freeipa_groups dry_run :
follows rpc (sync rpc idp_users idp_groups freeipa_users freeipa_groups dry_run)
        (plan_sync idp_users idp_groups freeipa_users freeipa_groups dry_run).
Proof.
unfold sync, plan_sync. cbv zeta.
apply follows_bind; [apply follows_when, follows_print|].
apply follows_bind.
{ apply follows_phase. intros; apply freeipa_user_add_follows. }
apply follows_bind.
{ apply follows_phase. intros; apply freeipa_user_del_follows. }
apply follows_bind.
{ apply follows_phase. intros; apply freeipa_group_add_follows. }
apply follows_bind.
{ apply follows_phase. intros; apply freeipa_group_del_follows. }
apply follows_bind.
{ apply follows_phase. intros; apply freeipa_user_mod_follows. }
apply follows_bind; [|apply follows_print].
apply follows_phase. intros g (fg & Hget & _)%modified_groups_current.
rewrite Hget. eapply follows_index; [done|]. apply freeipa_group_mod_follows.
Qed.

(** What [sync] does is a prefix of its script. *)
Lemma sync_log_prefix idp_users idp_groups freeipa_users freeipa_groups dry_run s :
log (sync rpc idp_users idp_groups freeipa_users freeipa_groups dry_run s)
`prefix_of` plan_sync idp_users idp_groups freeipa_users freeipa_groups dry_run.
Proof. rewrite sync_follows. apply exec_prefix. Qed.

End exec_facts.

(** ** Projections of a script *)

Section projections.
Context {B : Type} (f : event → option B).

Lemma omap_prefix (t1 t2 : list event) :
t1 `prefix_of` t2 → omap f t1 `prefix_of` omap f t2.
Proof. intros [k ->]. rewrite omap_app. by eexists. Qed.

Lemma omap_bind_ext {A} (xs : list A) (g h : A → list event) :
(∀ x, x ∈ xs → omap f (g x) = omap f (h x)) →
omap f (xs ≫= g) = omap f (xs ≫= h).
Proof.
induction xs as [|x xs IH]; intros Hgh; [done|].
rewrite !bind_cons, !omap_app, Hgh by apply list_elem_of_here.
f_equal. apply IH. intros y Hy. by apply Hgh, list_elem_of_further.
Qed.

Lemma omap_bind {A} (xs : list A) (g : A → list event) :
omap f (xs ≫= g) = xs ≫= λ x, omap f (g x).
Proof.
induction xs as [|x xs IH]; [done|]. by rewrite !bind_cons, omap_app, IH.
Qed.

Lemma omap_bind_nil {A} (xs : list A) (g : A → list event) :
(∀ x, x ∈ xs → omap f (g x) = []) → omap f (xs ≫= g) = [].
Proof.
induction xs as [|x xs IH]; intros Hg; [done|].
rewrite bind_cons, omap_app, Hg by apply list_elem_of_here.
apply IH. intros y Hy. by apply Hg, list_elem_of_further.
Qed.

Lemma omap_phase {A} header (actions : list A) (step : A → list event) :
f (Print header) = None →
omap f (plan_phase header actions step) = actions ≫= λ x, omap f (step x).
Proof.
intros Hh. unfold plan_phase, len_truthy.
destruct actions as [|x xs]; [done|]. simpl negb. cbv iota.
rewrite omap_app, omap_bind. simpl. by rewrite Hh.
Qed.
End projections.

Lemma bind_singleton {A B} (g : A → B) (xs : list A) :
xs ≫= (λ x, [g x]) = g <$> xs.
Proof. induction xs as [|x xs IH]; [done|]. by rewrite bind_cons, IH. Qed.

(** * The apply functions *)

Lemma elem_of_calls (c : call) (t : list event) : c ∈ calls t ↔ Call c ∈ t.
Proof.
unfold calls. rewrite list_elem_of_omap. split.
- by intros ([line|c'] & Hin & ?); simplify_eq.
- intros Hin. by exists (Call c).
Qed.

(** ** Dry runs *)

Section dry_run.
Context {cstate : Type} (rpc : call → cstate → result cstate).

Lemma faithful_of_plan (f : bool → run cstate unit) (plan : bool → list event) :
(∀ b, follows rpc (f b) (plan b)) →
calls (plan true) = [] →
prints (plan true) = prints (plan false) →
dry_run_faithful f.
Proof.
intros Hf Hcalls Hprints s. rewrite !Hf, exec_no_calls by done. simpl.
rewrite Hprints. repeat split; [done| |].
- apply omap_prefix, exec_prefix.
- intros s' Hret. by rewrite (exec_returns _ _ _ _ Hret).
Qed.

Lemma plan_group_add_dry group :
calls (plan_group_add group true) = []
∧ prints (plan_group_add group true) = prints (plan_group_add group false).
Proof.
unfold plan_group_add, calls, prints.
destruct (len_truthy (Group.members group)); [|done].
rewrite !omap_app. split.
- rewrite omap_bind_nil; done.
- do 3 f_equal. by apply omap_bind_ext.
Qed.

Lemma plan_group_mod_dry idpgroup freeipagroup idp_users :
calls (plan_group_mod idpgroup freeipagroup idp_users true) = []
∧ prints (plan_group_mod idpgroup freeipagroup idp_users true)
= prints (plan_group_mod idpgroup freeipagroup idp_users false).
Proof.
unfold plan_group_mod, calls, prints. rewrite !omap_app. simpl negb. cbv iota.
destruct (members_ne _ _).
- rewrite !omap_app. split.
+ rewrite !omap_bind_nil; done.
+ f_equal. destruct (ne _ _); simpl; f_equal; by apply omap_bind_ext.
- split; [done|]. by destruct (ne _ _).
Qed.

(** C9: in dry-run mode each of the six apply functions makes no client
  call and leaves the client as it was, and the lines it prints are those
  of the real run on the same action (the real run printing fewer lines
  only when a client call raises and ends it). *)
Theorem dry_run_makes_no_call (user : User) (group freeipagroup : Group)
(idp_users : dict User) :
dry_run_faithful (freeipa_user_add rpc user)
∧ dry_run_faithful (freeipa_user_del rpc user)
∧ dry_run_faithful (freeipa_user_mod rpc user)
∧ dry_run_faithful (freeipa_group_add rpc group)
∧ dry_run_faithful (freeipa_group_del rpc group)
∧ dry_run_faithful (freeipa_group_mod rpc group freeipagroup idp_users).
Proof.
split_and!.
- by apply (faithful_of_plan _ (plan_user_add user));
  [apply freeipa_user_add_follows|..].
- by apply (faithful_of_plan _ (plan_user_del user));
  [apply freeipa_user_del_follows|..].
- by apply (faithful_of_plan _ (plan_user_mod user));
  [apply freeipa_user_mod_follows|..].
- apply (faithful_of_plan _ (plan_group_add group));
  [apply freeipa_group_add_follows | apply plan_group_add_dry..].
- by apply (faithful_of_plan _ (plan_group_del group));
  [apply freeipa_group_del_follows|..].
- apply (faithful_of_plan _ (plan_group_mod group freeipagroup idp_users));
  [apply freeipa_group_mod_follows | apply plan_group_mod_dry..].
Qed.
End dry_run.

(** ** Group modification *)

Lemma members_to_remove_filter idpgroup freeipagroup idp_users :
members_to_remove idpgroup freeipagroup idp_users
= filter (λ member, member ∉ dict_keys (Group.members idpgroup)
                    ∧ member ∈ dict_keys idp_users)
         (dict_keys (Group.members freeipagroup)).
Proof.
apply list_filter_iff. intros member.
by rewrite dict_in_false, dict_in_true.
Qed.

Lemma members_to_add_filter idpgroup freeipagroup :
members_to_add idpgroup freeipagroup
= filter (λ member, member ∉ dict_keys (Group.members freeipagroup))
         (dict_keys (Group.members idpgroup)).
Proof. apply list_filter_iff. intros member. by rewrite dict_in_false. Qed.

Lemma plan_group_mod_calls idpgroup freeipagroup idp_users :
calls (plan_group_mod idpgroup freeipagroup idp_users false)
= group_mod_calls idpgroup freeipagroup idp_users.
Proof.
unfold plan_group_mod, group_mod_calls, calls. rewrite !omap_app. simpl negb.
cbv iota. simpl (omap _ [Print _]). rewrite app_nil_l.
f_equal; [by destruct (ne _ _)|].
destruct (members_ne _ _); [|done].
rewrite omap_app, !omap_bind. f_equal; apply bind_singleton.
Qed.

Lemma plan_group_mod_removed idpgroup freeipagroup idp_users :
removed (plan_group_mod idpgroup freeipagroup idp_users false)
= if members_ne (Group.members idpgroup) (Group.members freeipagroup)
  then members_to_remove idpgroup freeipagroup idp_users else [].
Proof.
unfold plan_group_mod, removed. rewrite !omap_app. simpl negb. cbv iota.
simpl (omap _ [Print _]). rewrite app_nil_l.
replace (omap _ (if ne _ _ then _ else _)) with (@nil string)
  by (by destruct (ne _ _)).
destruct (members_ne _ _); [|done].
rewrite omap_app, (omap_bind_nil _ (members_to_add _ _)), app_nil_l by done.
rewrite omap_bind. etrans; [|apply list_fmap_id]. exact (bind_singleton id _).
Qed.

Lemma plan_group_mod_added idpgroup freeipagroup idp_users :
added (plan_group_mod idpgroup freeipagroup idp_users false)
= if members_ne (Group.members idpgroup) (Group.members freeipagroup)
  then members_to_add idpgroup freeipagroup else [].
Proof.
unfold plan_group_mod, added. rewrite !omap_app. simpl negb. cbv iota.
simpl (omap _ [Print _]). rewrite app_nil_l.
replace (omap _ (if ne _ _ then _ else _)) with (@nil string)
  by (by destruct (ne _ _)).
destruct (members_ne _ _); [|done].
rewrite omap_app, (omap_bind_nil _ (members_to_remove _ _ _)), app_nil_r by done.
rewrite omap_bind. etrans; [|apply list_fmap_id]. exact (bind_singleton id _).
Qed.

(** No script of [freeipa_group_mod] removes a member unknown to the IDP. *)
Lemma plan_group_mod_keeps_unknown idpgroup freeipagroup idp_users dry_run cn member :
member ∉ dict_keys idp_users →
Call (group_remove_member cn member)
∉ plan_group_mod idpgroup freeipagroup idp_users dry_run.
Proof.
intros Hunknown. unfold plan_group_mod. rewrite !elem_of_app.
intros [Hin|[Hin|Hin]].
- by apply list_elem_of_singleton in Hin.
- destruct dry_run; simpl in Hin; [by apply elem_of_nil in Hin|].
  destruct (ne _ _); [by apply list_elem_of_singleton in Hin|].
  by apply elem_of_nil in Hin.
- destruct (members_ne _ _); [|by apply elem_of_nil in Hin].
  apply elem_of_app in Hin as [Hin|Hin];
    apply list_elem_of_bind in Hin as (m & Hin & Hm).
  + apply elem_of_cons in Hin as [?|Hin]; [done|].
    destruct dry_run; simpl in Hin; [by apply elem_of_nil in Hin|].
    by apply list_elem_of_singleton in Hin.
  + apply elem_of_cons in Hin as [?|Hin]; [done|].
    destruct dry_run; simpl in Hin; [by apply elem_of_nil in Hin|].
    apply list_elem_of_singleton in Hin. simplify_eq.
    rewrite members_to_remove_filter in Hm.
    apply list_elem_of_filter in Hm as [[_ ?] _]. done.
Qed.

Section group_mod.
Context {cstate : Type} (rpc : call → cstate → result cstate).
Implicit Types (idpgroup freeipagroup : Group) (idp_users : dict User).

(** C1: when the member sets differ, a real run of [freeipa_group_mod]
  removes exactly the current members that are not desired members and
  are keys of the desired users, in the order of the current members (a
  run ended by a raising call has removed the first of them); no run,
  real or dry, ever removes a member that is not a key of the desired
  users. *)
Theorem group_mod_removals idpgroup freeipagroup idp_users (s : cstate) :
dict_wf (Group.members idpgroup) →
dict_wf (Group.members freeipagroup) →
list_to_set (dict_keys (Group.members idpgroup))
≠@{gset string} list_to_set (dict_keys (Group.members freeipagroup)) →
let r := freeipa_group_mod rpc idpgroup freeipagroup idp_users false s in
let to_remove :=
filter (λ member, member ∉ dict_keys (Group.members idpgroup)
                  ∧ member ∈ dict_keys idp_users)
       (dict_keys (Group.members freeipagroup)) in
removed (log r) `prefix_of` to_remove
∧ (∀ s', ret r = Ok (tt, s') → removed (log r) = to_remove)
∧ (∀ dry_run s0 cn member,
   member ∉ dict_keys idp_users →
   Call (group_remove_member cn member)
   ∉ log (freeipa_group_mod rpc idpgroup freeipagroup idp_users dry_run s0)).
Proof.
intros Hwi Hwf Hne%members_ne_true r to_remove; [|done..].
assert (removed (plan_group_mod idpgroup freeipagroup idp_users false) = to_remove)
as Hplan.
{ by rewrite plan_group_mod_removed, Hne, members_to_remove_filter. }
unfold r. rewrite !(freeipa_group_mod_follows rpc _ _ _ false s). split_and!.
- rewrite <-Hplan. apply omap_prefix, exec_prefix.
- intros s' Hret. by rewrite (exec_returns _ _ _ _ Hret).
- intros dry_run s0 cn member Hunknown Hin.
rewrite freeipa_group_mod_follows in Hin.
eapply plan_group_mod_keeps_unknown; [done|].
eapply elem_of_prefix; [done | apply exec_prefix].
Qed.

(** C2, as the code has it: after a real run of [freeipa_group_mod] that
  returns, the current members less the removed ones plus the added ones
  are the desired members together with the current members that are not
  keys of the desired users; so the delta converges when every current
  member is a key of the desired users. *)
Theorem membership_delta idpgroup freeipagroup idp_users (s s' : cstate) :
dict_wf (Group.members idpgroup) →
dict_wf (Group.members freeipagroup) →
ret (freeipa_group_mod rpc idpgroup freeipagroup idp_users false s) = Ok (tt, s') →
let t := log (freeipa_group_mod rpc idpgroup freeipagroup idp_users false s) in
(list_to_set (dict_keys (Group.members freeipagroup)) ∖ list_to_set (removed t))
∪ list_to_set (added t)
=@{gset string}
list_to_set (dict_keys (Group.members idpgroup))
∪ (list_to_set (dict_keys (Group.members freeipagroup))
 ∖ list_to_set (dict_keys idp_users))
∧ ((∀ member, member ∈ dict_keys (Group.members freeipagroup) →
            member ∈ dict_keys idp_users) →
 converges idpgroup freeipagroup t).
Proof.
intros Hwi Hwf Hret t.
assert (t = plan_group_mod idpgroup freeipagroup idp_users false) as Ht.
{ unfold t. rewrite freeipa_group_mod_follows in Hret |- *.
by apply exec_returns in Hret. }
assert (∀ m,
(m ∈ dict_keys (Group.members freeipagroup) ∧ m ∉ removed t) ∨ m ∈ added t
↔ m ∈ dict_keys (Group.members idpgroup)
  ∨ (m ∈ dict_keys (Group.members freeipagroup) ∧ m ∉ dict_keys idp_users))
as Hdelta.
{ intros m. rewrite Ht, plan_group_mod_removed, plan_group_mod_added.
destruct (members_ne _ _) eqn:Hne.
- rewrite members_to_remove_filter, members_to_add_filter.
  rewrite !list_elem_of_filter.
  destruct (decide (m ∈ dict_keys (Group.members idpgroup)));
    destruct (decide (m ∈ dict_keys (Group.members freeipagroup)));
    destruct (decide (m ∈ dict_keys idp_users)); tauto.
- apply members_ne_false in Hne; [|done..].
  assert (m ∈ dict_keys (Group.members idpgroup)
          ↔ m ∈ dict_keys (Group.members freeipagroup)) as Hsame.
  { by rewrite <-!(elem_of_list_to_set (C:=gset string)), Hne. }
  rewrite elem_of_nil. tauto. }
split.
- apply set_eq. intros m.
rewrite !elem_of_union, !elem_of_difference, !elem_of_list_to_set.
apply Hdelta.
- intros Hknown. unfold converges. apply set_eq. intros m.
rewrite !elem_of_union, !elem_of_difference, !elem_of_list_to_set.
rewrite Hdelta. specialize (Hknown m). tauto.
Qed.

(** C6: in a real run [freeipa_group_mod] calls [group_mod] if and only
  if the two descriptions differ, and then for the desired group with its
  description; with equal descriptions no run calls [group_mod],
  whatever the members are. *)
Theorem group_mod_description idpgroup freeipagroup idp_users (s : cstate) :
(∀ cn d,
 Call (group_mod cn d)
 ∈ log (freeipa_group_mod rpc idpgroup freeipagroup idp_users false s)
 ↔ cn = Group.name idpgroup ∧ d = Group.description idpgroup
   ∧ Group.description idpgroup ≠ Group.description freeipagroup)
∧ (Group.description idpgroup = Group.description freeipagroup →
 ∀ dry_run cn d,
   Call (group_mod cn d)
   ∉ log (freeipa_group_mod rpc idpgroup freeipagroup idp_users dry_run s)).
Proof.
assert (∀ dry_run cn d,
Call (group_mod cn d)
∈ log (freeipa_group_mod rpc idpgroup freeipagroup idp_users dry_run s) →
dry_run = false ∧ cn = Group.name idpgroup ∧ d = Group.description idpgroup
∧ Group.description idpgroup ≠ Group.description freeipagroup) as Honly.
{ intros dry_run cn d Hin. rewrite freeipa_group_mod_follows in Hin.
pose proof (elem_of_prefix _ _ _ Hin (exec_prefix rpc _ s)) as Hplan.
apply elem_of_calls in Hplan. destruct dry_run.
- by rewrite (proj1 (plan_group_mod_dry _ _ _)) in Hplan;
    apply elem_of_nil in Hplan.
- rewrite plan_group_mod_calls in Hplan. unfold group_mod_calls in Hplan.
  apply elem_of_app in Hplan as [Hplan|Hplan].
  + destruct (ne _ _) eqn:Hd; [|by apply elem_of_nil in Hplan].
    apply list_elem_of_singleton in Hplan. simplify_eq.
    split_and!; [done..|]. intros Heq%ne_false. congruence.
  + destruct (members_ne _ _); [|by apply elem_of_nil in Hplan].
    apply elem_of_app in Hplan as [Hplan|Hplan];
      apply list_elem_of_fmap in Hplan as (m & ? & _); done. }
split.
- intros cn d. split; [intros Hin; apply Honly in Hin; tauto|].
intros (-> & -> & Hd). rewrite freeipa_group_mod_follows.
unfold plan_group_mod. simpl negb. cbv iota.
destruct (ne _ _) eqn:Hne; [|rewrite ne_false in Hne; contradiction].
apply (exec_first_call _ [_]). done.
- intros Heq dry_run cn d Hin. apply Honly in Hin. tauto.
Qed.
End group_mod.

(** ** The apply phase of [sync] *)

Lemma len_truthy_false {A} (xs : list A) : len_truthy xs = false → xs = [].
Proof. by destruct xs. Qed.

Lemma plan_group_add_calls group :
calls (plan_group_add group false) = group_add_calls group.
Proof.
unfold plan_group_add, group_add_calls, calls. rewrite !omap_app.
simpl (omap _ [Print _]). rewrite app_nil_l.
change (group_add ?a ?b :: ?l) with ([group_add a b] ++ l).
f_equal. destruct (len_truthy _) eqn:Hlen.
- rewrite omap_app, omap_bind. exact (bind_singleton _ _).
- by rewrite (len_truthy_false _ Hlen).
Qed.

Lemma plan_sync_calls idp_users idp_groups freeipa_users freeipa_groups :
calls (plan_sync idp_users idp_groups freeipa_users freeipa_groups false)
= ((λ user, user_add (user_kwargs_of user))
     <$> users_not_in idp_users freeipa_users)
  ++ ((λ user, user_del (username user) false)
     <$> users_not_in freeipa_users idp_users)
  ++ (groups_not_in idp_groups freeipa_groups ≫= group_add_calls)
  ++ ((λ group, group_del (Group.name group))
     <$> groups_not_in freeipa_groups idp_groups)
  ++ ((λ user, user_mod (user_kwargs_of user))
     <$> modified_users idp_users freeipa_users)
  ++ (modified_groups idp_groups freeipa_groups ≫= λ group,
        match dict_get (Group.name group) freeipa_groups with
        | Some freeipagroup => group_mod_calls group freeipagroup idp_users
        | None => []
        end).
Proof.
unfold plan_sync, calls. cbv zeta. rewrite !omap_app, !omap_phase by done.
simpl (omap _ []). simpl (omap _ [Print _]). rewrite app_nil_l, app_nil_r.
apply (f_equal2 app); [exact (bind_singleton _ _)|].
apply (f_equal2 app); [exact (bind_singleton _ _)|].
apply (f_equal2 app);
  [apply list_bind_ext; [|done]; intros g; apply plan_group_add_calls|].
apply (f_equal2 app); [exact (bind_singleton _ _)|].
apply (f_equal2 app); [exact (bind_singleton _ _)|].
apply list_bind_ext; [|done]. intros g.
destruct (dict_get _ _); [apply plan_group_mod_calls | done].
Qed.

Lemma bind_all_nil {A B} (g : A → list B) (xs : list A) :
(∀ x, g x = []) → xs ≫= g = [].
Proof.
intros Hg. induction xs as [|x xs IH]; [done|]. by rewrite bind_cons, Hg, IH.
Qed.

Lemma plan_sync_dry_calls idp_users idp_groups freeipa_users freeipa_groups :
calls (plan_sync idp_users idp_groups freeipa_users freeipa_groups true) = [].
Proof.
unfold plan_sync, calls. cbv zeta iota. rewrite !omap_app, !omap_phase by done.
simpl (omap _ [Print _]).
rewrite !bind_all_nil; [done|..]; intros x; try done.
- destruct (dict_get _ _); [apply plan_group_mod_dry | done].
- apply plan_group_add_dry.
Qed.

Section sync.
Context {cstate : Type} (rpc : call → cstate → result cstate).

(** A dry run of [sync] is its script: it does not depend on the client. *)
Lemma sync_dry_run idp_users idp_groups freeipa_users freeipa_groups (s : cstate) :
sync rpc idp_users idp_groups freeipa_users freeipa_groups true s
= Reply (plan_sync idp_users idp_groups freeipa_users freeipa_groups true)
      (Ok (tt, s)).
Proof. rewrite sync_follows. apply exec_no_calls, plan_sync_dry_calls. Qed.

(** C8, as the code has it: the calls of a real run of [sync] are, in this
  order, the user adds, the user deletes, the group adds (each followed
  by the adds of its members), the group deletes, the user modifications
  and the group modifications (each with its membership delta); a run
  ended by a raising call has made the first of them. *)
Theorem sync_order idp_users idp_groups freeipa_users freeipa_groups (s : cstate) :
let r := sync rpc idp_users idp_groups freeipa_users freeipa_groups false s in
let user_adds :=
(λ user, user_add (user_kwargs_of user))
  <$> users_not_in idp_users freeipa_users in
let user_deletes :=
(λ user, user_del (username user) false)
  <$> users_not_in freeipa_users idp_users in
let group_adds := groups_not_in idp_groups freeipa_groups ≫= group_add_calls in
let group_deletes :=
(λ group, group_del (Group.name group))
  <$> groups_not_in freeipa_groups idp_groups in
let user_mods :=
(λ user, user_mod (user_kwargs_of user))
  <$> modified_users idp_users freeipa_users in
let group_mods :=
modified_groups idp_groups freeipa_groups ≫= λ group,
  match dict_get (Group.name group) freeipa_groups with
  | Some freeipagroup => group_mod_calls group freeipagroup idp_users
  | None => []
  end in
let ordered :=
user_adds ++ user_deletes ++ group_adds ++ group_deletes
++ user_mods ++ group_mods in
calls (log r) `prefix_of` ordered
∧ (∀ s', ret r = Ok (tt, s') → calls (log r) = ordered).
Proof.
cbv zeta. rewrite <-plan_sync_calls, !(sync_follows rpc _ _ _ _ false s). split.
- apply omap_prefix, exec_prefix.
- intros s' Hret. by rewrite (exec_returns _ _ _ _ Hret).
Qed.
(** The calls of a real run of [sync] are those of its script: the first
    of them, and all of them when the run returns. *)
Lemma sync_calls_prefix idp_users idp_groups freeipa_users freeipa_groups
  (dry_run : bool) (s : cstate) :
calls (log (sync rpc idp_users idp_groups freeipa_users freeipa_groups dry_run s))
`prefix_of`
calls (plan_sync idp_users idp_groups freeipa_users freeipa_groups dry_run).
Proof. rewrite sync_follows. apply omap_prefix, exec_prefix. Qed.

Lemma sync_calls_returned idp_users idp_groups freeipa_users freeipa_groups
  (dry_run : bool) (s s' : cstate) :
ret (sync rpc idp_users idp_groups freeipa_users freeipa_groups dry_run s)
  = Ok (tt, s') →
calls (log (sync rpc idp_users idp_groups freeipa_users freeipa_groups dry_run s))
= calls (plan_sync idp_users idp_groups freeipa_users freeipa_groups dry_run).
Proof.
rewrite !(sync_follows rpc _ _ _ _ dry_run s). intros Hret.
by rewrite (exec_returns _ _ _ _ Hret).
Qed.

(** In a real run of [sync] that returns, on keyed snapshots, [group_mod]
    is called for a group name exactly when the group is in both snapshots
    with different descriptions. *)
Lemma sync_group_mod_description idp_users idp_groups freeipa_users freeipa_groups
  (s s' : cstate) (cn : string) :
groups_keyed idp_groups →
ret (sync rpc idp_users idp_groups freeipa_users freeipa_groups false s)
  = Ok (tt, s') →
(∃ d, Call (group_mod cn d)
      ∈ log (sync rpc idp_users idp_groups freeipa_users freeipa_groups false s))
↔ ∃ g fg, dict_get cn idp_groups = Some g ∧ dict_get cn freeipa_groups = Some fg
          ∧ Group.description g ≠ Group.description fg.
Proof.
intros [Hwf Hkey] Hret.
setoid_rewrite <-elem_of_calls.
rewrite (sync_calls_returned _ _ _ _ _ _ _ Hret), plan_sync_calls. split.
- intros [d Hin]. rewrite !elem_of_app in Hin.
  destruct Hin as [Hin|[Hin|[Hin|[Hin|[Hin|Hin]]]]].
  + by apply list_elem_of_fmap in Hin as (? & ? & _).
  + by apply list_elem_of_fmap in Hin as (? & ? & _).
  + apply list_elem_of_bind in Hin as (g & Hin & _).
    apply elem_of_cons in Hin as [?|Hin]; [done|].
    by apply list_elem_of_fmap in Hin as (? & ? & _).
  + by apply list_elem_of_fmap in Hin as (? & ? & _).
  + by apply list_elem_of_fmap in Hin as (? & ? & _).
  + apply list_elem_of_bind in Hin as (g & Hin & Hg).
    rewrite modified_groups_filter in Hg.
    apply list_elem_of_filter in Hg as [_ Hg].
    destruct (dict_get (Group.name g) freeipa_groups) as [fg|] eqn:Hfg;
      [|by apply elem_of_nil in Hin].
    unfold group_mod_calls in Hin. apply elem_of_app in Hin as [Hin|Hin].
    * destruct (ne _ _) eqn:Hne; [|by apply elem_of_nil in Hin].
      apply list_elem_of_singleton in Hin. simplify_eq.
      exists g, fg. split_and!; [by apply groups_keyed_get|done|].
      intros Heq%ne_false. congruence.
    * destruct (members_ne _ _); [|by apply elem_of_nil in Hin].
      apply elem_of_app in Hin as [Hin|Hin];
        by apply list_elem_of_fmap in Hin as (? & ? & _).
- intros (g & fg & Hg & Hfg & Hd).
  apply dict_get_Some_elem in Hg as Hin.
  pose proof (Hkey _ _ Hin) as Hname.
  exists (Group.description g). rewrite !elem_of_app. do 5 right.
  apply list_elem_of_bind. exists g. split.
  + rewrite Hname, Hfg. unfold group_mod_calls. apply elem_of_app. left.
    destruct (ne _ _) eqn:Hne; [|rewrite ne_false in Hne; contradiction].
    rewrite <-Hname. apply list_elem_of_here.
  + rewrite modified_groups_filter. apply list_elem_of_filter.
    split; [|by eapply dict_elem_value].
    unfold group_modified, group_match. rewrite Hname, Hfg.
    destruct (ne _ _) eqn:Hne; [done|]. rewrite ne_false in Hne. contradiction.
Qed.
End sync.

(** ** Diffing a snapshot against itself, and twice *)

(** C5: the report of a dry run of [sync], which lists every action of the
    six lists, is the same for any two runs on the same snapshots, whatever
    the clients and their states; and on a snapshot diffed against itself
    the lists of users and groups to add, to delete and to modify are all
    empty. *)
Theorem diff_idempotent (users : dict User) (groups : dict Group) :
users_keyed users → groups_keyed groups →
(let new_users := users_not_in users users in
 let deleted_users := users_not_in users users in
 let new_groups := groups_not_in groups groups in
 let deleted_groups := groups_not_in groups groups in
 let updated_users := modified_users users users in
 let updated_groups := modified_groups groups groups in
 new_users = [] ∧ deleted_users = [] ∧ new_groups = [] ∧ deleted_groups = []
 ∧ updated_users = [] ∧ updated_groups = [])
∧ (∀ (cstate1 cstate2 : Type) (rpc1 : call → cstate1 → result cstate1)
     (rpc2 : call → cstate2 → result cstate2) (s1 : cstate1) (s2 : cstate2)
     (idp_users freeipa_users : dict User) (idp_groups freeipa_groups : dict Group),
     log (sync rpc1 idp_users idp_groups freeipa_users freeipa_groups true s1)
     = log (sync rpc2 idp_users idp_groups freeipa_users freeipa_groups true s2)).
Proof.
intros Hu Hg. split.
- cbv zeta. split_and!.
  + by apply users_not_in_self.
  + by apply users_not_in_self.
  + by apply groups_not_in_self.
  + by apply groups_not_in_self.
  + by apply modified_users_self.
  + by apply modified_groups_self.
- intros. by rewrite !sync_dry_run.
Qed.

(** * The LDAP loader *)

Lemma bind_Ok {A B} (m : result A) (f : A → result B) (b : B) :
m ≫= f = Ok b → ∃ a, m = Ok a ∧ f a = Ok b.
Proof. destruct m as [a|e]; [|done]. intros Hf. by exists a. Qed.

Section loader_facts.
Context (decode : string → option string) (config : config).
Implicit Types (users : dict User) (groups : dict Group) (members : dict unit).
Implicit Types (row : raw_attributes).

(** ** The users loop *)

Lemma ldap_user_row_inv row users users' :
ldap_user_row decode config row users = Ok users' →
users' = users
∨ ∃ user, users' = dict_set (username user) user users
      ∧ username user ∉ dict_keys users
      ∧ names_user decode config row (username user).
Proof.
unfold ldap_user_row. intros (idp & Hidp & H)%bind_Ok.
destruct idp as [idp|]; [|left; congruence].
destruct (list_in idp _) eqn:Hign; [left; congruence|].
apply bind_Ok in H as (n & Hn & H).
apply bind_Ok in H as (f & _ & H). apply bind_Ok in H as (l & _ & H).
apply bind_Ok in H as (nm & _ & H). apply bind_Ok in H as (e & _ & H).
apply bind_Ok in H as (i & _ & H). apply bind_Ok in H as (sh & _ & H).
apply bind_Ok in H as (a & _ & H). cbv zeta in H. simpl username in H.
destruct (dict_in n users) eqn:Hin; [done|]. right.
exists (mkUser n nm f l sh i (if list_in a (active_values config) then true else false)
             e "idp" (freeipa_idp_name config) idp).
split; [by simplify_eq|]. simpl.
split; [by apply dict_in_false|]. exists idp. split_and!; [done..|].
unfold index in Hn. by destruct (split _ idp !! 0); simplify_eq.
Qed.

Lemma ldap_user_row_keeps row users users' k :
ldap_user_row decode config row users = Ok users' →
k ∈ dict_keys users → k ∈ dict_keys users'.
Proof.
intros [->|(user & -> & _)]%ldap_user_row_inv Hk; [done|].
apply dict_set_keys. by right.
Qed.

Lemma ldap_user_row_adds row users users' n :
names_user decode config row n →
ldap_user_row decode config row users = Ok users' → n ∈ dict_keys users'.
Proof.
intros (idp & Hidp & Hign & Hn). unfold ldap_user_row.
rewrite Hidp. simpl. rewrite Hign. unfold index at 1. rewrite Hn. simpl.
intros H.
apply bind_Ok in H as (f & _ & H). apply bind_Ok in H as (l & _ & H).
apply bind_Ok in H as (nm & _ & H). apply bind_Ok in H as (e & _ & H).
apply bind_Ok in H as (i & _ & H). apply bind_Ok in H as (sh & _ & H).
apply bind_Ok in H as (a & _ & H).
destruct (dict_in n users) eqn:Hin; [done|]. simplify_eq.
apply dict_set_keys. by left.
Qed.

(** A row naming a user that is already in the mapping raises. *)
Lemma ldap_user_row_duplicate row users n :
names_user decode config row n → n ∈ dict_keys users →
∃ e, ldap_user_row decode config row users = Raise e.
Proof.
intros (idp & Hidp & Hign & Hsplit) Hn%dict_in_true. unfold ldap_user_row.
rewrite Hidp. simpl. rewrite Hign. unfold index at 1. rewrite Hsplit. simpl.
destruct (fetch_required_string decode row (attr_fname config)); [|by eauto].
destruct (fetch_required_string decode row (attr_lname config)); [|by eauto].
destruct (fetch_required_string decode row (attr_name config)); [|by eauto].
destruct (fetch_string decode row (attr_email config)); [|by eauto].
destruct (fetch_string decode row (attr_uid config)); [|by eauto].
destruct (fetch_string decode row (attr_shell config)); [|by eauto].
destruct (fetch_required_string decode row (attr_active config)); [|by eauto].
simpl. rewrite Hn. by eauto.
Qed.

Lemma ldap_user_row_keyed row users users' :
users_keyed users →
ldap_user_row decode config row users = Ok users' → users_keyed users'.
Proof.
intros [Hwf Hkey] [->|(user & -> & _)]%ldap_user_row_inv; [done|]. split.
- by apply dict_set_wf.
- intros k u [[-> ->]|Hin]%dict_set_elem; [done|]. by apply Hkey.
Qed.

Lemma ldap_users_loop_keeps rows users users' k :
ldap_users_loop decode config rows users = Ok users' →
k ∈ dict_keys users → k ∈ dict_keys users'.
Proof.
revert users. induction rows as [|row rows IH]; intros users; simpl.
- by intros [= ->].
- intros (users1 & Hrow & Hrest)%bind_Ok Hk.
eapply IH; [done|]. by eapply ldap_user_row_keeps.
Qed.

Lemma ldap_users_loop_keyed rows users users' :
users_keyed users →
ldap_users_loop decode config rows users = Ok users' → users_keyed users'.
Proof.
revert users. induction rows as [|row rows IH]; intros users Hk; simpl.
- by intros [= <-].
- intros (users1 & Hrow & Hrest)%bind_Ok.
eapply IH; [|done]. by eapply ldap_user_row_keyed.
Qed.

Lemma ldap_users_loop_app rows1 rows2 users :
ldap_users_loop decode config (rows1 ++ rows2) users
= ldap_users_loop decode config rows1 users
  ≫= ldap_users_loop decode config rows2.
Proof.
revert users. induction rows1 as [|row rows1 IH]; intros users; simpl; [done|].
destruct (ldap_user_row decode config row users) as [users1|e]; simpl; [|done].
apply IH.
Qed.

Lemma ldap_users_loop_duplicate row rows users n :
names_user decode config row n → n ∈ dict_keys users → row ∈ rows →
∃ e, ldap_users_loop decode config rows users = Raise e.
Proof.
intros Hrow. revert users.
induction rows as [|row' rows IH]; intros users Hn Hin.
- by apply elem_of_nil in Hin.
- simpl. destruct (ldap_user_row decode config row' users) as [users1|e] eqn:Hr;
  simpl; [|by eauto].
apply elem_of_cons in Hin as [->|Hin].
+ destruct (ldap_user_row_duplicate _ _ _ Hrow Hn) as [e He]. congruence.
+ apply IH; [|done]. by eapply ldap_user_row_keeps.
Qed.

(** ** The groups loop *)

Lemma ldap_member_known raw users members members' :
dict_wf members →
(∀ m, m ∈ dict_keys members → m ∈ dict_keys users) →
ldap_member decode config raw users members = Ok members' →
dict_wf members' ∧ ∀ m, m ∈ dict_keys members' → m ∈ dict_keys users.
Proof.
intros Hwf Hknown. unfold ldap_member.
intros (m1 & _ & H)%bind_Ok. apply bind_Ok in H as (m2 & _ & H).
apply bind_Ok in H as (m3 & _ & H).
destruct (list_in m3 _); [by simplify_eq|].
apply bind_Ok in H as (m4 & _ & H).
destruct (dict_in m4 users) eqn:Hin; simpl in H; simplify_eq; [|done].
split; [by apply dict_set_wf|].
intros m [->|Hm]%dict_set_keys; [by apply dict_in_true | by apply Hknown].
Qed.

Lemma ldap_members_loop_known raw users members members' :
dict_wf members →
(∀ m, m ∈ dict_keys members → m ∈ dict_keys users) →
ldap_members_loop decode config raw users members = Ok members' →
dict_wf members' ∧ ∀ m, m ∈ dict_keys members' → m ∈ dict_keys users.
Proof.
revert members. induction raw as [|member raw IH]; intros members Hwf Hknown; simpl.
- by intros [= <-].
- intros (members1 & Hm & Hrest)%bind_Ok.
destruct (ldap_member_known _ _ _ _ Hwf Hknown Hm) as [Hwf1 Hknown1].
by eapply IH.
Qed.

Lemma ldap_group_row_ok row users groups groups' :
(∀ k g, (k, g) ∈ groups → group_ok users k g) →
dict_wf groups →
ldap_group_row decode config row users groups = Ok groups' →
(∀ k g, (k, g) ∈ groups' → group_ok users k g) ∧ dict_wf groups'.
Proof.
intros Hok Hwf. unfold ldap_group_row.
destruct (negb (attr_truthy row "uniqueIdentifier")); [by intros [= <-]|].
intros (members & Hmembers & H)%bind_Ok.
apply bind_Ok in H as (n & _ & H). apply bind_Ok in H as (d & _ & H).
cbv zeta in H. simpl Group.name in H.
destruct (list_in n _); simplify_eq; [done|].
assert (dict_wf members ∧ ∀ m, m ∈ dict_keys members → m ∈ dict_keys users)
as [Hmwf Hmknown].
{ destruct (attr_truthy row _).
- eapply ldap_members_loop_known; [apply dict_wf_nil| |done].
  by intros m ?%elem_of_nil.
- simplify_eq. split; [apply dict_wf_nil | by intros m ?%elem_of_nil]. }
split; [|by apply dict_set_wf].
intros k g [[-> ->]|Hin]%dict_set_elem; [done | by apply Hok].
Qed.

Lemma ldap_groups_loop_ok rows users groups groups' :
(∀ k g, (k, g) ∈ groups → group_ok users k g) →
dict_wf groups →
ldap_groups_loop decode config rows users groups = Ok groups' →
(∀ k g, (k, g) ∈ groups' → group_ok users k g) ∧ dict_wf groups'.
Proof.
revert groups. induction rows as [|row rows IH]; intros groups Hok Hwf; simpl.
- by intros [= <-].
- intros (groups1 & Hrow & Hrest)%bind_Ok.
destruct (ldap_group_row_ok _ _ _ _ Hok Hwf Hrow) as [Hok1 Hwf1].
by eapply IH.
Qed.

(** X22: what [fetch_ldap] returns is keyed by username and by group
    name, and the members of each group are distinct. *)
Lemma fetch_ldap_keyed user_response group_response users groups :
fetch_ldap decode config user_response group_response = Ok (users, groups) →
users_keyed users ∧ groups_keyed groups
∧ ∀ g, g ∈ dict_values groups → dict_wf (Group.members g).
Proof.
unfold fetch_ldap. destruct user_response as [urows|]; [|done].
intros (users1 & Hu & H)%bind_Ok.
destruct group_response as [grows|]; [|done].
apply bind_Ok in H as (groups1 & Hg & H). simplify_eq.
apply ldap_users_loop_keyed in Hu;
[|split; [apply dict_wf_nil | by intros k u ?%elem_of_nil]].
apply ldap_groups_loop_ok in Hg as [Hok Hwf];
[|by intros k g ?%elem_of_nil | apply dict_wf_nil].
split_and!; [done| |].
- split; [done|]. intros k g Hin. by destruct (Hok k g Hin).
- intros g [k Hin]%dict_value_elem. by destruct (Hok k g Hin) as (_ & ? & _).
Qed.

(** In every snapshot [fetch_ldap] returns, each member of each group is a
    key of the users mapping. *)
Lemma fetch_ldap_referential_integrity user_response group_response users groups :
fetch_ldap decode config user_response group_response = Ok (users, groups) →
∀ group member,
group ∈ dict_values groups →
member ∈ dict_keys (Group.members group) →
member ∈ dict_keys users.
Proof.
unfold fetch_ldap. destruct user_response as [urows|]; [|done].
intros (users1 & Hu & H)%bind_Ok.
destruct group_response as [grows|]; [|done].
apply bind_Ok in H as (groups1 & Hg & H). simplify_eq.
apply ldap_groups_loop_ok in Hg as [Hok _];
[|by intros k g ?%elem_of_nil | apply dict_wf_nil].
intros group member [k Hin]%dict_value_elem Hmember.
destruct (Hok k group Hin) as (_ & _ & Hknown). by apply Hknown.
Qed.

(** X23: when two rows of the user search name the same user, that is, both
    have a username that is not ignored and the same text before its first
    [@], [fetch_ldap] raises and returns no snapshot. *)
Theorem fetch_ldap_duplicate_user rows1 row1 rows2 row2 rows3 group_response n :
names_user decode config row1 n →
names_user decode config row2 n →
∃ e, fetch_ldap decode config
     (Some (rows1 ++ row1 :: rows2 ++ row2 :: rows3)) group_response
   = Raise e.
Proof.
intros Hrow1 Hrow2. unfold fetch_ldap.
rewrite ldap_users_loop_app.
destruct (ldap_users_loop decode config rows1 []) as [users1|e]; simpl;
[|by eauto].
destruct (ldap_user_row decode config row1 users1) as [users2|e] eqn:Hr1; simpl;
[|by eauto].
apply (ldap_user_row_adds _ _ _ n Hrow1) in Hr1.
destruct (ldap_users_loop_duplicate row2 (rows2 ++ row2 :: rows3) users2 n)
as [e ->]; [done..| |by eauto].
apply elem_of_app. right. apply list_elem_of_here.
Qed.
End loader_facts.

(** * Concrete snapshots *)

Lemma users_of_keyed (us : list User) :
NoDup (username <$> us) → users_keyed (users_of us).
Proof.
intros Hnd. split.
- unfold dict_wf, dict_keys, users_of. by rewrite <-list_fmap_compose.
- intros k u (u' & [= -> ->] & _)%list_elem_of_fmap. done.
Defined.

Lemma groups_of_keyed (gs : list Group) :
NoDup (Group.name <$> gs) → groups_keyed (groups_of gs).
Proof.
intros Hnd. split.
- unfold dict_wf, dict_keys, groups_of. by rewrite <-list_fmap_compose.
- intros k g (g' & [= -> ->] & _)%list_elem_of_fmap. done.
Defined.

Lemma members_of_wf (ms : list string) : NoDup ms → dict_wf (members_of ms).
Proof.
intros Hnd. unfold dict_wf, dict_keys, members_of.
rewrite <-list_fmap_compose. by rewrite list_fmap_id.
Defined.

Ltac by_decide := apply (bool_decide_unpack _); vm_compute; exact I.

(** The group of the specification's scenario, with one more current
    member, dave, whom the IDP knows. *)
Lemma group_mod_removals_witness :
let desired := sample_group "eng" None ["alice"; "bob"] in
let current := sample_group "eng" None ["bob"; "carol"; "dave"] in
let idp_users :=
  users_of [sample_user "alice" None; sample_user "bob" None;
            sample_user "dave" None] in
dict_wf (Group.members desired)
∧ dict_wf (Group.members current)
∧ list_to_set (dict_keys (Group.members desired))
    ≠@{gset string} list_to_set (dict_keys (Group.members current))
∧ removed (log (freeipa_group_mod accept desired current idp_users false tt))
  = ["dave"].
Proof.
intros desired current idp_users.
assert (dict_wf (Group.members desired)) as Hd by (apply members_of_wf; by_decide).
assert (dict_wf (Group.members current)) as Hc by (apply members_of_wf; by_decide).
assert (list_to_set (dict_keys (Group.members desired))
          ≠@{gset string} list_to_set (dict_keys (Group.members current))) as Hne.
{ intros Heq. assert ("alice" ∈@{gset string}
    list_to_set (dict_keys (Group.members current))) as Hin.
  { rewrite <-Heq. apply elem_of_list_to_set. by_decide. }
  apply elem_of_list_to_set in Hin. revert Hin. by_decide. }
split_and!; [done..|].
destruct (group_mod_removals accept desired current idp_users tt Hd Hc Hne)
  as (_ & Hall & _).
rewrite (Hall tt eq_refl). reflexivity.
Defined.

Lemma membership_delta_witness :
let desired := sample_group "eng" None ["alice"; "bob"] in
let current := sample_group "eng" None ["bob"; "carol"; "dave"] in
let idp_users :=
  users_of [sample_user "alice" None; sample_user "bob" None;
            sample_user "dave" None] in
let r := freeipa_group_mod accept desired current idp_users false tt in
dict_wf (Group.members desired)
∧ dict_wf (Group.members current)
∧ ret r = Ok (tt, tt)
∧ (list_to_set (dict_keys (Group.members current)) ∖ list_to_set (removed (log r)))
  ∪ list_to_set (added (log r))
  =@{gset string}
  list_to_set (dict_keys (Group.members desired))
  ∪ (list_to_set (dict_keys (Group.members current))
     ∖ list_to_set (dict_keys idp_users)).
Proof.
intros desired current idp_users r.
assert (dict_wf (Group.members desired)) as Hd by (apply members_of_wf; by_decide).
assert (dict_wf (Group.members current)) as Hc by (apply members_of_wf; by_decide).
split_and!; [done..|].
exact (proj1 (membership_delta accept desired current idp_users tt tt
                Hd Hc eq_refl)).
Defined.

(** The scenario of the specification: carol, a current member whom the
    IDP does not know, is not removed, so the member set after the delta
    still has her and is not the desired one. *)
Lemma membership_delta_keeps_unknown_member :
let desired := sample_group "eng" None ["alice"; "bob"] in
let current := sample_group "eng" None ["bob"; "carol"] in
let idp_users := users_of [sample_user "alice" None; sample_user "bob" None] in
¬ converges desired current
    (log (freeipa_group_mod accept desired current idp_users false tt)).
Proof.
intros desired current idp_users Hconv. unfold converges in Hconv.
assert ("carol" ∈@{gset string}
          list_to_set (dict_keys (Group.members desired))) as Hin.
{ rewrite Hconv. apply elem_of_union. left. apply elem_of_difference.
  rewrite !elem_of_list_to_set. split; by_decide. }
apply elem_of_list_to_set in Hin. revert Hin. by_decide.
Qed.

(** alice is new, carol is gone, bob's shell changed, dan is unchanged. *)
Lemma users_partition_witness :
let desired :=
  users_of [sample_user "alice" None; sample_user "bob" (Some "/bin/zsh");
            sample_user "dan" None] in
let current :=
  users_of [sample_user "bob" (Some "/bin/sh"); sample_user "carol" None;
            sample_user "dan" (Some "/bin/sh")] in
let to_add := username <$> users_not_in desired current in
let to_delete := username <$> users_not_in current desired in
let to_modify := username <$> modified_users desired current in
users_keyed desired ∧ users_keyed current
∧ ("bob" ∈ dict_keys desired ∨ "bob" ∈ dict_keys current)
∧ NoDup (to_add ++ to_delete ++ to_modify)
∧ "bob" ∉ to_add ∧ "bob" ∉ to_delete ∧ "bob" ∈ to_modify.
Proof.
intros desired current to_add to_delete to_modify.
assert (users_keyed desired) as Hd by (apply users_of_keyed; by_decide).
assert (users_keyed current) as Hc by (apply users_of_keyed; by_decide).
assert ("bob" ∈ dict_keys desired ∨ "bob" ∈ dict_keys current) as Hn
  by (left; by_decide).
destruct (users_partition desired current "bob" Hd Hc Hn)
  as (Hnodup & Hadd & Hdel & Hmod & _).
split_and!; [done..| | |].
- intros Hin. apply Hadd in Hin. apply Hin. by_decide.
- intros Hin. apply Hdel in Hin. apply Hin. by_decide.
- apply Hmod. by exists (sample_user "bob" (Some "/bin/zsh")),
                        (sample_user "bob" (Some "/bin/sh")).
Defined.

Lemma diff_idempotent_witness :
let users := users_of [sample_user "alice" None; sample_user "bob" None] in
let groups :=
  groups_of [sample_group "eng" None ["alice"; "bob"];
             sample_group "ops" (Some "Operations") []] in
users_keyed users ∧ groups_keyed groups
∧ users_not_in users users = []
∧ users_not_in users users = []
∧ groups_not_in groups groups = []
∧ groups_not_in groups groups = []
∧ modified_users users users = []
∧ modified_groups groups groups = [].
Proof.
intros users groups.
assert (users_keyed users) as Hu by (apply users_of_keyed; by_decide).
assert (groups_keyed groups) as Hg by (apply groups_of_keyed; by_decide).
split; [done|]. split; [done|].
exact (proj1 (diff_idempotent users groups Hu Hg)).
Defined.

(** One deleted user and one new group: the user is deleted before the
    group is added, so not every add precedes every delete. *)
Lemma sync_deletes_user_before_adding_group :
let idp_groups := groups_of [sample_group "ops" None []] in
let freeipa_users := users_of [sample_user "carol" None] in
calls (log (sync accept [] idp_groups freeipa_users [] false tt))
= [user_del "carol" false; group_add "ops" None]
∧ ¬ adds_before_deletes
      (calls (log (sync accept [] idp_groups freeipa_users [] false tt))).
Proof.
intros idp_groups freeipa_users. split; [reflexivity|].
intros Horder.
specialize (Horder 1 0 (group_add "ops" None) (user_del "carol" false)
              eq_refl eq_refl I I).
lia.
Qed.

(** Two addresses of one mailbox name: both rows name the user bob. *)
Lemma fetch_ldap_duplicate_user_witness :
let row1 := sample_user_row "bob@a.example" in
let row2 := sample_user_row "bob@b.example" in
names_user Some sample_config row1 "bob"
∧ names_user Some sample_config row2 "bob"
∧ ∃ e, fetch_ldap Some sample_config
         (Some ([] ++ row1 :: [sample_user_row "amy"] ++ row2 :: []))
         (Some [])
       = Raise e.
Proof.
intros row1 row2.
assert (names_user Some sample_config row1 "bob") as H1
  by (exists "bob@a.example"; split_and!; reflexivity).
assert (names_user Some sample_config row2 "bob") as H2
  by (exists "bob@b.example"; split_and!; reflexivity).
split_and!; [done..|].
exact (fetch_ldap_duplicate_user Some sample_config
         [] row1 [sample_user_row "amy"] row2 [] (Some []) "bob" H1 H2).
Defined.

(** C7, where the code misses it: two rows of the group search with one
    group name raise nothing; [fetch_ldap] returns a snapshot in which the
    second group, without members, has replaced the first.  The loop over
    the users raises on a username it has stored already; the loop over the
    groups stores [groups[group.name] = group] without that check. *)
Lemma fetch_ldap_accepts_duplicate_group :
let row1 := sample_group_row "eng" ["uid=bob,ou=people"] in
let row2 := sample_group_row "eng" [] in
names_group Some sample_config row1 "eng"
∧ names_group Some sample_config row2 "eng"
∧ ∃ users,
    fetch_ldap Some sample_config (Some [sample_user_row "bob"])
      (Some [row1; row2])
    = Ok (users, [("eng", Group.mk "eng" None [])]).
Proof.
intros row1 row2. split_and!; [by split_and!..|].
eexists. vm_compute. reflexivity.
Qed.

(** * Further properties of the diff engine *)

Section keyed_groups.
Context (d : dict Group) (Hd : groups_keyed d).

Lemma groups_keyed_get_name (n : string) (g : Group) :
dict_get n d = Some g → Group.name g = n ∧ g ∈ dict_values d.
Proof using Hd.
destruct Hd as [Hwf Hkey]. intros Hin%dict_get_Some_elem.
split; [by apply Hkey | by apply (dict_elem_value n)].
Qed.

Lemma groups_keyed_filter_elem (P : Group → Prop) `{∀ g, Decision (P g)} (n : string) :
n ∈ Group.name <$> filter P (dict_values d) ↔ ∃ g, dict_get n d = Some g ∧ P g.
Proof using Hd.
rewrite list_elem_of_fmap. split.
- intros (g & -> & [HP Hg]%list_elem_of_filter).
exists g. split; [by apply groups_keyed_get | done].
- intros (g & [<- Hg]%groups_keyed_get_name & HP).
exists g. split; [done|]. by apply list_elem_of_filter.
Qed.

Lemma groups_keyed_filter_NoDup (P : Group → Prop) `{∀ g, Decision (P g)} :
NoDup (Group.name <$> filter P (dict_values d)).
Proof using Hd.
assert (NoDup (Group.name <$> dict_values d)) as Hnd.
{ replace (Group.name <$> dict_values d) with (dict_keys d); [apply Hd|].
destruct Hd as [_ Hkey]. unfold dict_values, dict_keys.
rewrite <-list_fmap_compose. symmetry. apply Forall_fmap_ext, Forall_forall.
intros [k g] Hin. simpl. by apply Hkey. }
apply NoDup_fmap_2_strong.
- intros x y [_ Hx]%list_elem_of_filter [_ Hy]%list_elem_of_filter Heq.
apply (groups_keyed_get _ _ Hd) in Hx, Hy. rewrite Heq in Hx. congruence.
- apply NoDup_filter. by apply NoDup_fmap_1 in Hnd.
Qed.
End keyed_groups.

Lemma groups_not_in_elem (list1 list2 : dict Group) (n : string) :
groups_keyed list1 →
n ∈ Group.name <$> groups_not_in list1 list2
↔ n ∈ dict_keys list1 ∧ n ∉ dict_keys list2.
Proof.
intros H1. unfold groups_not_in. rewrite groups_keyed_filter_elem by done.
rewrite <-dict_get_is_Some. split.
- intros (g & Hget & Hnot%dict_in_false).
  destruct (groups_keyed_get_name _ H1 _ _ Hget) as [<- _]. by eauto.
- intros [[g Hget] Hnot]. exists g. split; [done|].
  apply dict_in_false. by destruct (groups_keyed_get_name _ H1 _ _ Hget) as [-> _].
Qed.

Lemma modified_groups_elem (idp_groups freeipa_groups : dict Group) (n : string) :
groups_keyed idp_groups →
n ∈ Group.name <$> modified_groups idp_groups freeipa_groups
↔ ∃ d c, dict_get n idp_groups = Some d ∧ dict_get n freeipa_groups = Some c
         ∧ group_match d c = false.
Proof.
intros H1. rewrite modified_groups_filter, groups_keyed_filter_elem by done.
unfold group_modified. split.
- intros (g & Hget & Hmod).
  destruct (groups_keyed_get_name _ H1 _ _ Hget) as [<- _].
  destruct (dict_get (Group.name g) freeipa_groups) as [c|]; [|done].
  exists g, c. by apply negb_true_iff in Hmod.
- intros (g & c & Hget & Hc & Hm). exists g. split; [done|].
  destruct (groups_keyed_get_name _ H1 _ _ Hget) as [-> _].
  by rewrite Hc, Hm.
Qed.

(** The names of the three user lists, and of the three group lists, have
    no repetition. *)
Lemma user_lists_NoDup (desired current : dict User) :
users_keyed desired → users_keyed current →
NoDup ((username <$> users_not_in desired current)
       ++ (username <$> users_not_in current desired)
       ++ (username <$> modified_users desired current)).
Proof.
intros Hd Hc. rewrite !NoDup_app. split_and!.
- by apply keyed_filter_NoDup.
- intros m Hm Hm'. apply users_not_in_elem in Hm as [Hm1 Hm2]; [|done].
  apply elem_of_app in Hm' as [Hm'|Hm'].
  + apply users_not_in_elem in Hm' as [? ?]; [|done]. done.
  + apply modified_users_elem in Hm' as (d & c & _ & Hgc & _); [|done].
    apply Hm2, dict_get_is_Some. by eauto.
- by apply keyed_filter_NoDup.
- intros m Hm Hm'. apply users_not_in_elem in Hm as [Hm1 Hm2]; [|done].
  apply modified_users_elem in Hm' as (d & c & Hgd & _ & _); [|done].
  apply Hm2, dict_get_is_Some. by eauto.
- rewrite modified_users_filter. by apply keyed_filter_NoDup.
Qed.

Lemma group_lists_NoDup (desired current : dict Group) :
groups_keyed desired → groups_keyed current →
NoDup ((Group.name <$> groups_not_in desired current)
       ++ (Group.name <$> groups_not_in current desired)
       ++ (Group.name <$> modified_groups desired current)).
Proof.
intros Hd Hc. rewrite !NoDup_app. split_and!.
- by apply groups_keyed_filter_NoDup.
- intros m Hm Hm'. apply groups_not_in_elem in Hm as [Hm1 Hm2]; [|done].
  apply elem_of_app in Hm' as [Hm'|Hm'].
  + apply groups_not_in_elem in Hm' as [? ?]; [|done]. done.
  + apply modified_groups_elem in Hm' as (d & c & _ & Hgc & _); [|done].
    apply Hm2, dict_get_is_Some. by eauto.
- by apply groups_keyed_filter_NoDup.
- intros m Hm Hm'. apply groups_not_in_elem in Hm as [Hm1 Hm2]; [|done].
  apply modified_groups_elem in Hm' as (d & c & Hgd & _ & _); [|done].
  apply Hm2, dict_get_is_Some. by eauto.
- rewrite modified_groups_filter. by apply groups_keyed_filter_NoDup.
Qed.

(** X1: every group name of either snapshot is in exactly one of four
    classes: added (absent from current), deleted (absent from desired),
    modified (in both, [group_match] fails) or untouched (in both,
    [group_match] holds); the three lists together name no group twice. *)
Theorem groups_partition (desired current : dict Group) (n : string) :
groups_keyed desired → groups_keyed current →
n ∈ dict_keys desired ∨ n ∈ dict_keys current →
let to_add := Group.name <$> groups_not_in desired current in
let to_delete := Group.name <$> groups_not_in current desired in
let to_modify := Group.name <$> modified_groups desired current in
NoDup (to_add ++ to_delete ++ to_modify)
∧ (n ∈ to_add ↔ n ∉ dict_keys current)
∧ (n ∈ to_delete ↔ n ∉ dict_keys desired)
∧ (n ∈ to_modify ↔
     ∃ d c, dict_get n desired = Some d ∧ dict_get n current = Some c
            ∧ group_match d c = false)
∧ (n ∉ to_add ++ to_delete ++ to_modify ↔
     ∃ d c, dict_get n desired = Some d ∧ dict_get n current = Some c
            ∧ group_match d c = true).
Proof.
intros Hd Hc Hn to_add to_delete to_modify.
assert (∀ m, m ∈ to_add ↔ m ∈ dict_keys desired ∧ m ∉ dict_keys current)
  as Hadd by (intros m; by apply groups_not_in_elem).
assert (∀ m, m ∈ to_delete ↔ m ∈ dict_keys current ∧ m ∉ dict_keys desired)
  as Hdel by (intros m; by apply groups_not_in_elem).
assert (∀ m, m ∈ to_modify ↔
          ∃ d c, dict_get m desired = Some d ∧ dict_get m current = Some c
                 ∧ group_match d c = false)
  as Hmod by (intros m; by apply modified_groups_elem).
split_and!.
- by apply group_lists_NoDup.
- rewrite Hadd. tauto.
- rewrite Hdel. tauto.
- apply Hmod.
- rewrite !not_elem_of_app, Hadd, Hdel, Hmod. split.
  + intros (Hna & Hnd & Hnm).
    assert (n ∈ dict_keys desired) as [d Hgd]%dict_get_is_Some.
    { destruct (decide (n ∈ dict_keys desired)); [done|]. tauto. }
    assert (n ∈ dict_keys current) as [c Hgc]%dict_get_is_Some.
    { destruct (decide (n ∈ dict_keys current)); [done|]. tauto. }
    exists d, c. split_and!; [done..|].
    destruct (group_match d c) eqn:Hm; [done|].
    exfalso. apply Hnm. by exists d, c.
  + intros (d & c & Hgd & Hgc & Hm).
    assert (n ∈ dict_keys desired) by (apply dict_get_is_Some; eauto).
    assert (n ∈ dict_keys current) by (apply dict_get_is_Some; eauto).
    split_and!; [tauto..|].
    intros (d' & c' & Hgd' & Hgc' & Hm'). congruence.
Qed.

(** X2: two groups match exactly when their descriptions are equal and
    their members are the same set of usernames, in whatever order the two
    dictionaries hold them. *)
Theorem group_match_sets (idp_group freeipa_group : Group) :
dict_wf (Group.members idp_group) →
dict_wf (Group.members freeipa_group) →
group_match idp_group freeipa_group = true
↔ Group.description idp_group = Group.description freeipa_group
  ∧ list_to_set (dict_keys (Group.members idp_group))
    =@{gset string} list_to_set (dict_keys (Group.members freeipa_group)).
Proof.
intros Hi Hf. unfold group_match.
rewrite !guard_true, ne_false, members_ne_false by done. naive_solver.
Qed.

(** X3: [user_match] is reflexive and transitive: a user matches itself,
    and a desired user that matches a second user which matches a third
    matches the third. *)
Theorem user_match_preorder :
(∀ u, user_match u u = true)
∧ (∀ a b c, user_match a b = true → user_match b c = true →
            user_match a c = true).
Proof.
split; [apply user_match_refl|].
intros a b c. rewrite !user_match_true.
intros (? & ? & ? & He & ? & ? & ? & ? & Hi & Hs)
       (? & ? & ? & He' & ? & ? & ? & ? & Hi' & Hs').
split_and!; try congruence.
- destruct He as [?|He]; [by left|]. destruct He' as [?|?]; [left|right]; congruence.
- destruct Hi as [?|Hi]; [by left|]. destruct Hi' as [?|?]; [left|right]; congruence.
- destruct Hs as [?|Hs]; [by left|]. destruct Hs' as [?|?]; [left|right]; congruence.
Qed.

(** * Further properties of the apply functions *)

Lemma omap_phase_ext {A B} (f : event → option B) header (actions : list A)
  (step1 step2 : A → list event) :
(∀ x, omap f (step1 x) = omap f (step2 x)) →
omap f (plan_phase header actions step1) = omap f (plan_phase header actions step2).
Proof.
intros Hstep. unfold plan_phase. destruct (len_truthy actions); [|done].
rewrite !omap_app. f_equal. by apply omap_bind_ext.
Qed.

Lemma plan_sync_dry_prints idp_users idp_groups freeipa_users freeipa_groups :
prints (plan_sync idp_users idp_groups freeipa_users freeipa_groups true)
= "== DRY RUN =="
  :: prints (plan_sync idp_users idp_groups freeipa_users freeipa_groups false).
Proof.
unfold plan_sync, prints. cbv zeta iota. rewrite !omap_app.
simpl (omap _ [Print "== DRY RUN =="]). simpl (omap _ []).
rewrite app_nil_l. change ([?b] ++ ?t) with (b :: t). f_equal.
apply (f_equal2 app); [by apply omap_phase_ext|].
apply (f_equal2 app); [by apply omap_phase_ext|].
apply (f_equal2 app);
  [apply omap_phase_ext; intros g; apply plan_group_add_dry|].
apply (f_equal2 app); [by apply omap_phase_ext|].
apply (f_equal2 app); [by apply omap_phase_ext|].
apply (f_equal2 app); [|done].
apply omap_phase_ext. intros g.
destruct (dict_get _ _); [apply plan_group_mod_dry | done].
Qed.

(** In a list that is the start of [front ++ back], an element of the kind
    found only in [front] comes before one of a kind not found there. *)
Lemma segment_order {X} (P : X → Prop) (front back cs : list X) i j x y :
cs `prefix_of` front ++ back →
Forall P front → Forall (λ c, ¬ P c) back →
cs !! i = Some x → cs !! j = Some y → P x → ¬ P y → i < j.
Proof.
intros Hcs Hfront Hback Hi Hj Hx Hy.
apply (prefix_lookup_Some _ _ _ _ Hi) in Hcs as Hi'.
apply (prefix_lookup_Some _ _ _ _ Hj) in Hcs as Hj'.
apply lookup_app_Some in Hi' as [Hi'|[? Hi']]; last first.
{ by destruct (Forall_lookup_1 _ _ _ _ Hback Hi'). }
apply lookup_app_Some in Hj' as [Hj'|[? Hj']].
{ by destruct Hy; apply (Forall_lookup_1 _ _ _ _ Hfront Hj'). }
apply lookup_lt_Some in Hi'. lia.
Qed.

Section apply_facts.
Context {cstate : Type} (rpc : call → cstate → result cstate).

(** X4: in a real run [freeipa_group_add] first creates the group, then
  adds each member once, in the order of the members dictionary; the
  creation is attempted in every real run, and a run ended by a raising
  call has made the first of these calls. *)
Theorem group_add_call_sequence (group : Group) (s : cstate) :
let r := freeipa_group_add rpc group false s in
let expected :=
group_add (Group.name group) (Group.description group)
:: (group_add_member (Group.name group) <$> dict_keys (Group.members group)) in
calls (log r) `prefix_of` expected
∧ (∀ s', ret r = Ok (tt, s') → calls (log r) = expected)
∧ Call (group_add (Group.name group) (Group.description group)) ∈ log r.
Proof.
cbv zeta. fold (group_add_calls group). rewrite <-plan_group_add_calls.
rewrite !(freeipa_group_add_follows rpc group false s). split_and!.
- apply omap_prefix, exec_prefix.
- intros s' Hret. by rewrite (exec_returns _ _ _ _ Hret).
- unfold plan_group_add. by apply (exec_first_call _ [_]).
Qed.

(** X5: the calls of a real run of [freeipa_group_mod], in order: the
  description change if the descriptions differ, then, if the members
  differ, one add for each desired member that is not current and then
  one removal for each current member that is not desired and is a key of
  the IDP users. *)
Theorem group_mod_call_sequence (idpgroup freeipagroup : Group)
(idp_users : dict User) (s : cstate) :
let r := freeipa_group_mod rpc idpgroup freeipagroup idp_users false s in
let expected :=
(if ne (Group.description idpgroup) (Group.description freeipagroup)
 then [group_mod (Group.name idpgroup) (Group.description idpgroup)]
 else [])
++ (if members_ne (Group.members idpgroup) (Group.members freeipagroup)
    then (group_add_member (Group.name idpgroup)
            <$> filter (λ member, member ∉ dict_keys (Group.members freeipagroup))
                       (dict_keys (Group.members idpgroup)))
         ++ (group_remove_member (Group.name idpgroup)
            <$> filter (λ member, member ∉ dict_keys (Group.members idpgroup)
                                  ∧ member ∈ dict_keys idp_users)
                       (dict_keys (Group.members freeipagroup)))
    else []) in
calls (log r) `prefix_of` expected
∧ (∀ s', ret r = Ok (tt, s') → calls (log r) = expected).
Proof.
cbv zeta. rewrite <-members_to_add_filter, <-members_to_remove_filter.
fold (group_mod_calls idpgroup freeipagroup idp_users).
rewrite <-plan_group_mod_calls.
rewrite !(freeipa_group_mod_follows rpc _ _ _ false s). split.
- apply omap_prefix, exec_prefix.
- intros s' Hret. by rewrite (exec_returns _ _ _ _ Hret).
Qed.

(** X6: when the two groups have the same member set, in whatever order,
  no run of [freeipa_group_mod], real or dry, adds or removes a member. *)
Theorem group_mod_same_members (idpgroup freeipagroup : Group)
(idp_users : dict User) (dry_run : bool) (s : cstate) (cn member : string) :
dict_wf (Group.members idpgroup) →
dict_wf (Group.members freeipagroup) →
list_to_set (dict_keys (Group.members idpgroup))
=@{gset string} list_to_set (dict_keys (Group.members freeipagroup)) →
Call (group_add_member cn member)
∉ log (freeipa_group_mod rpc idpgroup freeipagroup idp_users dry_run s)
∧ Call (group_remove_member cn member)
∉ log (freeipa_group_mod rpc idpgroup freeipagroup idp_users dry_run s).
Proof.
intros Hi Hf Hsame%members_ne_false; [|done..].
assert (∀ c, (∀ d, c ≠ group_mod (Group.name idpgroup) d) →
Call c ∉ log (freeipa_group_mod rpc idpgroup freeipagroup idp_users dry_run s))
as Hnone.
{ intros c Hc Hin. rewrite freeipa_group_mod_follows in Hin.
pose proof (elem_of_prefix _ _ _ Hin (exec_prefix rpc _ s)) as Hplan.
unfold plan_group_mod in Hplan. rewrite Hsame, app_nil_r in Hplan.
apply elem_of_app in Hplan as [Hplan|Hplan].
- by apply list_elem_of_singleton in Hplan.
- destruct dry_run; simpl in Hplan; [by apply elem_of_nil in Hplan|].
  destruct (ne _ _); [|by apply elem_of_nil in Hplan].
  apply list_elem_of_singleton in Hplan. simplify_eq. by eapply Hc. }
split; by apply Hnone.
Qed.

(** X7: a dry run of the apply phase of [sync] makes no client call,
  leaves the client as it was and returns; its report is the line
  [== DRY RUN ==] followed by the report of the real run (of which a real
  run ended by a raising call has printed the first lines). *)
Theorem sync_dry_run_report idp_users idp_groups freeipa_users freeipa_groups
(s : cstate) :
let dry := sync rpc idp_users idp_groups freeipa_users freeipa_groups true s in
let real := sync rpc idp_users idp_groups freeipa_users freeipa_groups false s in
calls (log dry) = []
∧ ret dry = Ok (tt, s)
∧ "== DRY RUN ==" :: prints (log real) `prefix_of` prints (log dry)
∧ (∀ s', ret real = Ok (tt, s') →
       prints (log dry) = "== DRY RUN ==" :: prints (log real)).
Proof.
cbv zeta. rewrite sync_dry_run. cbn [log ret].
rewrite plan_sync_dry_calls, plan_sync_dry_prints.
rewrite !(sync_follows rpc _ _ _ _ false s). split_and!; [done..| |].
- apply prefix_cons, omap_prefix, exec_prefix.
- intros s' Hret. by rewrite (exec_returns _ _ _ _ Hret).
Qed.

(** X8: an exception that comes out of the apply phase of [sync] was
  raised by a client call, in a real run: the lookup
  [freeipa_groups[group.name]] never raises, and a dry run raises
  nothing. *)
Theorem sync_raises_only_client_errors idp_users idp_groups freeipa_users
freeipa_groups (dry_run : bool) (s : cstate) (e : exn) :
ret (sync rpc idp_users idp_groups freeipa_users freeipa_groups dry_run s)
= Raise e →
dry_run = false ∧ ∃ c s0, rpc c s0 = Raise e.
Proof.
intros Hret. split.
- destruct dry_run; [|done]. by rewrite sync_dry_run in Hret.
- rewrite sync_follows in Hret. by eapply exec_raises.
Qed.

(** X9: when FreeIPA already holds what the IDP holds, the apply phase
  does nothing: no client call, the client as it was, and no line printed
  but the dry-run banner and [Sync Complete]. *)
Theorem sync_in_sync_noop (users : dict User) (groups : dict Group)
(dry_run : bool) (s : cstate) :
users_keyed users → groups_keyed groups →
sync rpc users groups users groups dry_run s
= Reply ((if dry_run then [Print "== DRY RUN =="] else [])
       ++ [Print "Sync Complete"])
      (Ok (tt, s)).
Proof.
intros Hu Hg. rewrite sync_follows. unfold plan_sync. cbv zeta.
rewrite users_not_in_self, groups_not_in_self, modified_users_self,
modified_groups_self by done.
unfold plan_phase. simpl. apply exec_no_calls. by destruct dry_run.
Qed.

(** X10: in every run of the apply phase, each call that adds or deletes
  a user comes before each call on a group (creation, deletion,
  description, membership). *)
Theorem sync_user_calls_precede_group_calls idp_users idp_groups freeipa_users
freeipa_groups (dry_run : bool) (s : cstate) (i j : nat) (c d : call) :
let cs :=
calls (log (sync rpc idp_users idp_groups freeipa_users freeipa_groups
              dry_run s)) in
cs !! i = Some c → cs !! j = Some d →
is_user_add_or_del c → is_group_call d → i < j.
Proof.
intros cs Hi Hj Hc Hd.
pose proof (sync_calls_prefix rpc idp_users idp_groups freeipa_users
            freeipa_groups dry_run s) as Hcs.
destruct dry_run.
{ rewrite plan_sync_dry_calls in Hcs. apply prefix_nil_inv in Hcs.
unfold cs in Hi. by rewrite Hcs in Hi. }
rewrite plan_sync_calls, (assoc_L (++)) in Hcs.
eapply (segment_order is_user_add_or_del); [exact Hcs| | |done..|].
- apply Forall_app. split; apply Forall_fmap, Forall_forall; by intros.
- rewrite !Forall_app. split_and!.
+ apply Forall_bind, Forall_forall. intros g _. apply Forall_cons.
  split; [by intros []|]. apply Forall_fmap, Forall_forall. by intros ? _ [].
+ apply Forall_fmap, Forall_forall. by intros ? _ [].
+ apply Forall_fmap, Forall_forall. by intros ? _ [].
+ apply Forall_bind, Forall_forall. intros g _.
  simpl. destruct (dict_get (Group.name g) freeipa_groups); [|done].
  unfold group_mod_calls.
  apply Forall_app. split; [destruct (ne _ _); [|done]|].
  * apply Forall_singleton. by intros [].
  * destruct (members_ne _ _); [|done]. apply Forall_app.
    split; apply Forall_fmap, Forall_forall; by intros ? _ [].
- destruct d; simpl in *; tauto.
Qed.
End apply_facts.

(** * Further properties of the LDAP loader *)

Lemma dict_get_set {V} (k k' : string) (v : V) (d : dict V) :
dict_get k' (dict_set k v d) = if decide (k' = k) then Some v else dict_get k' d.
Proof.
induction d as [|[k0 v0] d IH]; simpl.
- by destruct (decide (k' = k)).
- destruct (decide (k = k0)) as [->|Hne]; simpl.
  + by destruct (decide (k' = k0)).
  + rewrite IH. destruct (decide (k' = k0)) as [->|]; [|done].
    by rewrite decide_False.
Qed.

(** ** [split] *)

Lemma split_head (sep : ascii) (s : string) : ∃ w ws, split sep s = w :: ws.
Proof.
induction s as [|c s (w & ws & IH)]; simpl; [by eauto|].
destruct (decide (c = sep)); [by eauto|]. rewrite IH. by eauto.
Qed.

Lemma split_head_no_sep (sep : ascii) (s w : string) :
split sep s !! 0 = Some w → sep ∉ String.list_ascii_of_string w.
Proof.
revert w. induction s as [|c s IH]; intros w; simpl.
- intros [= <-]. apply not_elem_of_nil.
- destruct (decide (c = sep)) as [->|Hne]; simpl.
  + intros [= <-]. apply not_elem_of_nil.
  + destruct (split_head sep s) as (w' & ws & Hs). rewrite Hs in IH |- *.
    simpl. intros [= <-]. simpl. apply not_elem_of_cons. split; [done|].
    by apply IH.
Qed.

Lemma split_head_prefix (sep : ascii) (s w : string) :
split sep s !! 0 = Some w → s = w ∨ ∃ rest, s = w +:+ String sep rest.
Proof.
revert w. induction s as [|c s IH]; intros w; simpl.
- intros [= <-]. by left.
- destruct (decide (c = sep)) as [->|Hne]; simpl.
  + intros [= <-]. right. by exists s.
  + destruct (split_head sep s) as (w' & ws & Hs). rewrite Hs in IH |- *.
    simpl. intros [= <-].
    destruct (IH w' eq_refl) as [->|[rest ->]]; [by left|].
    right. by exists rest.
Qed.

Section loader_more.
Context (decode : string → option string) (config : config).
Implicit Types (users : dict User) (groups : dict Group) (members : dict unit).
Implicit Types (row : raw_attributes).

(** ** The users *)

Lemma user_of_row_names row u :
user_of_row decode config row u → names_user decode config row (username u).
Proof. intros (? & ? & ? & _). by exists (idp_username u). Qed.

Lemma user_of_row_unique row u u' :
user_of_row decode config row u → user_of_row decode config row u' → u = u'.
Proof.
intros (H1 & _ & H3 & H4 & H5 & H6 & H7 & H8 & H9 & (a & Ha & Hact) & H11 & H12)
       (H1' & _ & H3' & H4' & H5' & H6' & H7' & H8' & H9' & (a' & Ha' & Hact')
        & H11' & H12').
destruct u, u'; simpl in *; f_equal; congruence.
Qed.

Lemma ldap_user_row_cases row users users' :
ldap_user_row decode config row users = Ok users' →
(users' = users ∧ ∀ u, ¬ user_of_row decode config row u)
∨ ∃ u, user_of_row decode config row u
       ∧ dict_get (username u) users = None
       ∧ users' = dict_set (username u) u users.
Proof.
unfold ldap_user_row. intros (idp & Hidp & H)%bind_Ok.
destruct idp as [idp|]; last first.
{ left. simpl in H. split; [by simplify_eq|]. intros u (Hu & _). congruence. }
destruct (list_in idp _) eqn:Hign.
{ left. simpl in H. split; [by simplify_eq|].
  intros u (Hu & Hnot & _). congruence. }
apply bind_Ok in H as (n & Hn & H).
apply bind_Ok in H as (f & Hf & H). apply bind_Ok in H as (l & Hl & H).
apply bind_Ok in H as (nm & Hnm & H). apply bind_Ok in H as (e & He & H).
apply bind_Ok in H as (i & Hi & H). apply bind_Ok in H as (sh & Hsh & H).
apply bind_Ok in H as (a & Ha & H). cbv zeta in H. simpl username in H.
destruct (dict_in n users) eqn:Hin; [done|]. right.
exists (mkUser n nm f l sh i (if list_in a (active_values config) then true else false)
               e "idp" (freeipa_idp_name config) idp).
split_and!; [|by apply dict_get_None, dict_in_false|by simplify_eq].
unfold index in Hn. destruct (split _ idp !! 0) eqn:Hsplit; simplify_eq.
split_and!; simpl; try done. exists a. split; [done|].
by destruct (list_in a _).
Qed.

Lemma ldap_user_row_get row users users' n u :
ldap_user_row decode config row users = Ok users' →
dict_get n users' = Some u
↔ dict_get n users = Some u
  ∨ (user_of_row decode config row u ∧ username u = n).
Proof.
intros [[-> Hnone]|(u0 & Hu0 & Hfresh & ->)]%ldap_user_row_cases.
- split; [by left|]. intros [?|[?%Hnone _]]; done.
- rewrite dict_get_set. destruct (decide (n = username u0)) as [->|Hne].
  + split.
    * intros [= <-]. by right.
    * intros [?|[Hu _]]; [congruence|].
      by rewrite (user_of_row_unique _ _ _ Hu Hu0).
  + split; [by left|]. intros [?|[Hu <-]]; [done|].
    by rewrite (user_of_row_unique _ _ _ Hu Hu0) in Hne.
Qed.

Lemma ldap_users_loop_get rows users users' n u :
ldap_users_loop decode config rows users = Ok users' →
dict_get n users' = Some u
↔ dict_get n users = Some u
  ∨ ∃ row, row ∈ rows ∧ user_of_row decode config row u ∧ username u = n.
Proof.
revert users. induction rows as [|row rows IH]; intros users; simpl.
- intros [= <-]. split; [by left|]. intros [?|(? & []%elem_of_nil & _)]. done.
- intros (users1 & Hrow & Hrest)%bind_Ok.
  rewrite (IH _ Hrest), (ldap_user_row_get _ _ _ _ _ Hrow).
  setoid_rewrite elem_of_cons. naive_solver.
Qed.

(** X12: the users [fetch_ldap] returns are exactly those built from the
    rows of the user search whose username is there and not ignored, each
    under its username: none is lost, none is invented, and each carries
    the attributes of its row. *)
Theorem fetch_ldap_users_from_rows user_rows group_response users groups n u :
fetch_ldap decode config (Some user_rows) group_response = Ok (users, groups) →
dict_get n users = Some u
↔ ∃ row, row ∈ user_rows ∧ user_of_row decode config row u ∧ username u = n.
Proof.
unfold fetch_ldap. intros (users1 & Hu & H)%bind_Ok.
destruct group_response as [grows|]; [|done].
apply bind_Ok in H as (groups1 & Hg & H). simplify_eq.
rewrite (ldap_users_loop_get _ _ _ _ _ Hu). simpl. naive_solver.
Qed.

(** X13: a username in a returned snapshot has no [@]: it is the IDP
    username, or what stands before the first [@] of it; and the IDP
    username is not on the ignore list. *)
Theorem fetch_ldap_usernames user_response group_response users groups u :
fetch_ldap decode config user_response group_response = Ok (users, groups) →
u ∈ dict_values users →
"@"%char ∉ String.list_ascii_of_string (username u)
∧ (idp_username u = username u
   ∨ ∃ rest, idp_username u = username u +:+ String "@"%char rest)
∧ list_in (idp_username u) (ignore_users_list config) = false.
Proof.
intros Hfetch [k Hin]%dict_value_elem.
assert (∃ row, user_of_row decode config row u) as (row & _ & Hign & Hsplit & _).
{ revert Hfetch Hin. unfold fetch_ldap.
  destruct user_response as [urows|]; [|done].
  intros (users1 & Hu & H)%bind_Ok.
  destruct group_response as [grows|]; [|done].
  apply bind_Ok in H as (groups1 & Hg & H). simplify_eq. intros Hin.
  assert (dict_wf users) as Hwf.
  { eapply ldap_users_loop_keyed; [|done].
    split; [apply dict_wf_nil | by intros ? ? ?%elem_of_nil]. }
  apply (dict_elem_get _ _ _ Hwf) in Hin.
  apply (ldap_users_loop_get _ _ _ _ _ Hu) in Hin as [?|(row & _ & ? & _)];
    [done | by exists row]. }
split_and!; [by eapply split_head_no_sep | by apply split_head_prefix | done].
Qed.
(** ** The groups *)

Lemma index_Ok {A} (l : list A) (i : nat) (x : A) :
index l i = Ok x ↔ l !! i = Some x.
Proof. unfold index. destruct (l !! i); naive_solver. Qed.

Lemma index_None {A} (l : list A) (i : nat) :
l !! i = None → index l i = Raise IndexError.
Proof. unfold index. by intros ->. Qed.

Lemma decode_utf8_Ok (raw s : string) : decode_utf8 decode raw = Ok s ↔ decode raw = Some s.
Proof. unfold decode_utf8. destruct (decode raw); naive_solver. Qed.

Lemma member_of_unique raw m m' :
member_of decode config raw m → member_of decode config raw m' → m = m'.
Proof.
intros (dn & rdn & v & H1 & H2 & H3 & _ & H5)
       (dn' & rdn' & v' & H1' & H2' & H3' & _ & H5').
congruence.
Qed.

Lemma ldap_member_keys raw users members members' m :
ldap_member decode config raw users members = Ok members' →
m ∈ dict_keys members'
↔ m ∈ dict_keys members
  ∨ (member_of decode config raw m ∧ m ∈ dict_keys users).
Proof.
unfold ldap_member.
intros (dn & Hdn%decode_utf8_Ok & H)%bind_Ok.
apply bind_Ok in H as (rdn & Hrdn%index_Ok & H).
apply bind_Ok in H as (v & Hv%index_Ok & H).
destruct (list_in v _) eqn:Hign.
{ simplify_eq. split; [by left|]. intros [?|[Hm _]]; [done|].
  destruct Hm as (? & ? & ? & ? & ? & ? & ? & _). congruence. }
apply bind_Ok in H as (m0 & Hm0%index_Ok & H).
assert (member_of decode config raw m0) as Hof by (by exists dn, rdn, v).
destruct (dict_in m0 users) eqn:Hin; simpl in H; simplify_eq.
- rewrite dict_set_keys. apply dict_in_true in Hin. split.
  + intros [->|?]; [by right | by left].
  + intros [?|[Hm _]]; [by right|]. left. by eapply member_of_unique.
- apply dict_in_false in Hin. split; [by left|].
  intros [?|[Hm Hk]]; [done|].
  by rewrite (member_of_unique _ _ _ Hm Hof) in Hk.
Qed.

Lemma ldap_members_loop_keys raws users members members' m :
ldap_members_loop decode config raws users members = Ok members' →
m ∈ dict_keys members'
↔ m ∈ dict_keys members
  ∨ ∃ raw, raw ∈ raws ∧ member_of decode config raw m ∧ m ∈ dict_keys users.
Proof.
revert members. induction raws as [|raw raws IH]; intros members; simpl.
- intros [= <-]. split; [by left|]. intros [?|(? & []%elem_of_nil & _)]. done.
- intros (members1 & Hm & Hrest)%bind_Ok.
  rewrite (IH _ Hrest), (ldap_member_keys _ _ _ _ _ Hm).
  setoid_rewrite elem_of_cons. naive_solver.
Qed.

Lemma ldap_member_wf raw users members members' :
dict_wf members →
ldap_member decode config raw users members = Ok members' → dict_wf members'.
Proof.
intros Hwf. unfold ldap_member.
intros (dn & _ & H)%bind_Ok. apply bind_Ok in H as (rdn & _ & H).
apply bind_Ok in H as (v & _ & H).
destruct (list_in v _); [by simplify_eq|].
apply bind_Ok in H as (m0 & _ & H).
destruct (dict_in m0 users); simpl in H; simplify_eq; [|done].
by apply dict_set_wf.
Qed.

Lemma ldap_members_loop_wf raws users members members' :
dict_wf members →
ldap_members_loop decode config raws users members = Ok members' →
dict_wf members'.
Proof.
revert members. induction raws as [|raw raws IH]; intros members Hwf; simpl.
- by intros [= <-].
- intros (members1 & Hm & Hrest)%bind_Ok.
  eapply IH; [|done]. by eapply ldap_member_wf.
Qed.

Lemma ldap_group_row_cases row users groups groups' :
ldap_group_row decode config row users groups = Ok groups' →
groups' = groups
∨ ∃ g, group_of_row decode config users row g
       ∧ groups' = dict_set (Group.name g) g groups.
Proof.
unfold ldap_group_row.
destruct (attr_truthy row "uniqueIdentifier") eqn:Huid; simpl;
  [|intros [= <-]; by left].
intros (members & Hmembers & H)%bind_Ok.
apply bind_Ok in H as (n & Hn & H). apply bind_Ok in H as (d & Hd & H).
cbv zeta in H. simpl Group.name in H.
destruct (list_in n _) eqn:Hign; simplify_eq; [by left|]. right.
exists (Group.mk n d members). split; [|done].
split_and!; simpl; [done..| |].
- destruct (attr_truthy row (attr_group_members config));
    [|simplify_eq; apply dict_wf_nil].
  eapply ldap_members_loop_wf; [apply dict_wf_nil | done].
- intros m. destruct (attr_truthy row (attr_group_members config)) eqn:Htruthy.
  + rewrite (ldap_members_loop_keys _ _ _ _ _ Hmembers).
    split; [intros [?%elem_of_nil|?]; done | by right].
  + simplify_eq. unfold attr_truthy in Htruthy.
    destruct (dict_get (attr_group_members config) row) as [[|raw raws]|];
      [|done|]; cbn [default from_option id];
      (split; [by intros ?%elem_of_nil | by intros (? & ?%elem_of_nil & _)]).
Qed.

Lemma ldap_groups_loop_from_rows rows users groups groups' k g :
ldap_groups_loop decode config rows users groups = Ok groups' →
(k, g) ∈ groups' →
(k, g) ∈ groups
∨ ∃ row, row ∈ rows ∧ group_of_row decode config users row g
         ∧ Group.name g = k.
Proof.
revert groups. induction rows as [|row rows IH]; intros groups; simpl.
- intros [= <-] ?. by left.
- intros (groups1 & Hrow & Hrest)%bind_Ok Hin.
  destruct (IH _ Hrest Hin) as [Hin1|(row' & ? & ? & ?)]; last first.
  { right. exists row'. split_and!; [by apply list_elem_of_further|done..]. }
  apply ldap_group_row_cases in Hrow as [->|(g0 & Hg0 & ->)]; [by left|].
  apply dict_set_elem in Hin1 as [[-> ->]|?]; [|by left].
  right. exists row. split_and!; [apply list_elem_of_here|done..].
Qed.

(** X14: every group [fetch_ldap] returns was built from a row of the
    group search that has a [uniqueIdentifier] and whose name is not on the
    ignore list; it is stored under that name with the description of the
    row, and its members are exactly the usernames that the member values
    of the row stand for and that are keys of the returned users. *)
Theorem fetch_ldap_groups_from_rows user_response group_rows users groups k g :
fetch_ldap decode config user_response (Some group_rows) = Ok (users, groups) →
(k, g) ∈ groups →
∃ row, row ∈ group_rows ∧ group_of_row decode config users row g
       ∧ Group.name g = k.
Proof.
unfold fetch_ldap. destruct user_response as [urows|]; [|done].
intros (users1 & Hu & H)%bind_Ok.
apply bind_Ok in H as (groups1 & Hg & H). simplify_eq. intros Hin.
destruct (ldap_groups_loop_from_rows _ _ _ _ _ _ Hg Hin) as [[]%elem_of_nil|?].
done.
Qed.
(** ** Member values that cannot be parsed *)

Lemma ldap_member_unparseable raw users members :
unparseable decode raw →
∃ e, ldap_member decode config raw users members = Raise e.
Proof.
unfold ldap_member.
intros [Hraw|(dn & rdn & Hdn%decode_utf8_Ok & Hrdn%index_Ok & Hvalue)].
- unfold decode_utf8. rewrite Hraw. cbn [mbind result_bind]. by eauto.
- rewrite Hdn. cbn [mbind result_bind]. rewrite Hrdn. cbn [mbind result_bind].
  rewrite (index_None _ _ Hvalue). cbn [mbind result_bind]. by eauto.
Qed.

Lemma ldap_members_loop_unparseable raw raws users members :
raw ∈ raws → unparseable decode raw →
∃ e, ldap_members_loop decode config raws users members = Raise e.
Proof.
intros Hin Hraw. revert members.
induction raws as [|raw' raws IH]; intros members.
- by apply elem_of_nil in Hin.
- simpl. apply elem_of_cons in Hin as [<-|Hin].
  + destruct (ldap_member_unparseable raw users members Hraw) as [e ->].
    by eauto.
  + destruct (ldap_member decode config raw' users members); simpl;
      [by apply IH | by eauto].
Qed.

Lemma ldap_group_row_unparseable row raw users groups :
attr_truthy row "uniqueIdentifier" = true →
raw ∈ default [] (dict_get (attr_group_members config) row) →
unparseable decode raw →
∃ e, ldap_group_row decode config row users groups = Raise e.
Proof.
intros Huid Hin Hraw. unfold ldap_group_row. rewrite Huid. simpl negb. cbv iota.
assert (attr_truthy row (attr_group_members config) = true) as ->.
{ unfold attr_truthy.
  destruct (dict_get (attr_group_members config) row) as [[|? ?]|]; [|done|];
    by apply elem_of_nil in Hin. }
destruct (ldap_members_loop_unparseable raw _ users [] Hin Hraw) as [e ->].
by eauto.
Qed.

Lemma ldap_groups_loop_unparseable row rows raw users groups :
row ∈ rows →
attr_truthy row "uniqueIdentifier" = true →
raw ∈ default [] (dict_get (attr_group_members config) row) →
unparseable decode raw →
∃ e, ldap_groups_loop decode config rows users groups = Raise e.
Proof.
intros Hrow Huid Hin Hraw. revert groups.
induction rows as [|row' rows IH]; intros groups.
- by apply elem_of_nil in Hrow.
- simpl. apply elem_of_cons in Hrow as [<-|Hrow].
  + destruct (ldap_group_row_unparseable row raw users groups Huid Hin Hraw)
      as [e ->]. by eauto.
  + destruct (ldap_group_row decode config row' users groups); simpl;
      [by apply IH | by eauto].
Qed.

(** A member value that is ignored, or that names no loaded user, is
    dropped: the members stay as they were. *)
Lemma ldap_member_dropped raw users members dn rdn value :
decode raw = Some dn →
split ","%char dn !! 0 = Some rdn →
split "="%char rdn !! 1 = Some value →
list_in value (ignore_users_list config) = true
∨ (∃ member, split "@"%char value !! 0 = Some member
             ∧ member ∉ dict_keys users) →
ldap_member decode config raw users members = Ok members.
Proof.
intros Hdn%decode_utf8_Ok Hrdn%index_Ok Hvalue%index_Ok Hdrop.
unfold ldap_member. rewrite Hdn. cbn [mbind result_bind].
rewrite Hrdn. cbn [mbind result_bind]. rewrite Hvalue. cbn [mbind result_bind].
destruct Hdrop as [->|(member & Hmember%index_Ok & Hstale%dict_in_false)];
  [done|].
destruct (list_in value _); [done|].
rewrite Hmember. cbn [mbind result_bind]. by rewrite Hstale.
Qed.

(** C10, as the code has it: in every snapshot [fetch_ldap] returns, each
    member of each group is a key of the users mapping, because a member
    value that is ignored or stale (it names no loaded user) is dropped
    before the group is built; a member value that cannot be parsed (it
    does not decode, or the first component of its DN has no [=]) is not
    dropped: it raises, and [fetch_ldap] returns no snapshot. *)
Theorem fetch_ldap_member_handling :
(∀ user_response group_response users groups,
   fetch_ldap decode config user_response group_response = Ok (users, groups) →
   ∀ group member,
     group ∈ dict_values groups →
     member ∈ dict_keys (Group.members group) →
     member ∈ dict_keys users)
∧ (∀ raw users members dn rdn value,
     decode raw = Some dn →
     split ","%char dn !! 0 = Some rdn →
     split "="%char rdn !! 1 = Some value →
     list_in value (ignore_users_list config) = true
     ∨ (∃ member, split "@"%char value !! 0 = Some member
                  ∧ member ∉ dict_keys users) →
     ldap_member decode config raw users members = Ok members)
∧ (∀ user_response group_rows row raw,
     row ∈ group_rows →
     attr_truthy row "uniqueIdentifier" = true →
     raw ∈ default [] (dict_get (attr_group_members config) row) →
     unparseable decode raw →
     ∃ e, fetch_ldap decode config user_response (Some group_rows) = Raise e).
Proof.
split_and!.
- apply fetch_ldap_referential_integrity.
- apply ldap_member_dropped.
- intros user_response group_rows row raw Hrow Huid Hin Hraw. unfold fetch_ldap.
  destruct user_response as [urows|]; [|by eauto].
  destruct (ldap_users_loop decode config urows []) as [users|e]; simpl;
    [|by eauto].
  destruct (ldap_groups_loop_unparseable row group_rows raw users []
              Hrow Huid Hin Hraw) as [e ->].
  by eauto.
Qed.
End loader_more.

(** * The FreeIPA loader *)

(** On a row of [str] values [fetch_string] is [fetch_string_str]. *)
Lemma fetch_string_str_agrees (values : dict (list string)) (name : option string) :
fetch_string Some values name = Ok (fetch_string_str values name).
Proof.
destruct name as [name|]; [|done]. simpl.
destruct (bool_decide _); [done|].
by destruct (dict_get name values) as [[|val rest]|].
Qed.

Lemma fetch_required_string_str_Ok (values : dict (list string)) (name val : string) :
name ≠ "" →
fetch_required_string_str values name = Ok val
↔ fetch_string_str values (Some name) = Some val.
Proof.
intros Hname. unfold fetch_required_string_str.
rewrite bool_decide_eq_false_2 by (by destruct name).
destruct (fetch_string_str values (Some name)); naive_solver.
Qed.

Lemma fetch_required_string_str_returns (values : dict (list string)) (name : string) :
name ≠ "" →
(∃ val, fetch_required_string_str values name = Ok val)
↔ is_Some (fetch_string_str values (Some name)).
Proof.
intros Hname. unfold is_Some.
by setoid_rewrite (fetch_required_string_str_Ok _ _ _ Hname).
Qed.

Section freeipa_facts.
Context (config : freeipa_config).
Implicit Types (users : dict User) (groups : dict Group) (members : dict unit).
Implicit Types (row : freeipa_row).

(** ** The users *)

Lemma freeipa_user_row_cases row users users' :
freeipa_user_row config row users = Ok users' →
∃ u, freeipa_user_of_row row u
     ∧ (if list_in (username u) (freeipa_ignore_users_list config)
        then users' = users
        else users' = dict_set (username u) u users).
Proof.
unfold freeipa_user_row. cbv zeta.
intros (n & Hn%fetch_required_string_str_Ok & H)%bind_Ok; [|done].
apply bind_Ok in H as (l & Hl%fetch_required_string_str_Ok & H); [|done].
apply bind_Ok in H as (nm & Hnm%fetch_required_string_str_Ok & H); [|done].
apply bind_Ok in H as (i & Hi%fetch_required_string_str_Ok & H); [|done].
apply bind_Ok in H as (lock & Hlock & H).
unfold nsaccountlock_of in Hlock.
destruct (row_nsaccountlock row) as [lock'|] eqn:Hrow; simplify_eq.
eexists (mkUser n nm _ l _ (Some i) _ _ _ _ _). split.
- unfold freeipa_user_of_row. cbv zeta. simpl.
  split_and!; try done. exists lock. split; [done|]. by destruct lock.
- simpl in *. destruct (list_in n _); by simplify_eq.
Qed.

Lemma freeipa_user_row_returns row users :
(∃ users', freeipa_user_row config row users = Ok users') ↔ user_row_complete row.
Proof.
unfold user_row_complete. split.
- intros [users' (u & Hu & _)%freeipa_user_row_cases].
  destruct Hu as (H1 & H2 & H3 & H4 & H5 & _ & _ & _ & _ & _ & _ & lock & H6 & _).
  cbv zeta in *. rewrite H1, H2, H3, H5, H6. by eauto.
- intros ([n Hn] & [l Hl] & [nm Hnm] & [i Hi] & [lock Hlock]).
  unfold freeipa_user_row. cbv zeta.
  rewrite (proj2 (fetch_required_string_str_Ok _ "uid" _ ltac:(done)) Hn).
  rewrite (proj2 (fetch_required_string_str_Ok _ "sn" _ ltac:(done)) Hl).
  rewrite (proj2 (fetch_required_string_str_Ok _ "cn" _ ltac:(done)) Hnm).
  rewrite (proj2 (fetch_required_string_str_Ok _ "uidnumber" _ ltac:(done)) Hi).
  unfold nsaccountlock_of. rewrite Hlock. simpl.
  destruct (list_in n _); by eauto.
Qed.

Lemma freeipa_users_loop_returns rows users :
(∃ users', freeipa_users_loop config rows users = Ok users')
↔ Forall user_row_complete rows.
Proof.
revert users. induction rows as [|row rows IH]; intros users; simpl.
- split; [by intros _; constructor | by eauto].
- rewrite Forall_cons, <-(freeipa_user_row_returns row users). split.
  + intros [users' (users1 & Hrow & Hrest)%bind_Ok].
    split; [by eauto|]. apply (IH users1). by eauto.
  + intros [[users1 Hrow] Hrest]. rewrite Hrow. simpl. by apply IH.
Qed.

Lemma freeipa_users_loop_from_rows rows users users' k u :
freeipa_users_loop config rows users = Ok users' →
(k, u) ∈ users' →
(k, u) ∈ users
∨ ∃ row, row ∈ rows ∧ freeipa_user_of_row row u ∧ username u = k
         ∧ list_in k (freeipa_ignore_users_list config) = false.
Proof.
revert users. induction rows as [|row rows IH]; intros users; simpl.
- intros [= <-] ?. by left.
- intros (users1 & Hrow & Hrest)%bind_Ok Hin.
  destruct (IH _ Hrest Hin) as [Hin1|(row' & ? & ? & ? & ?)]; last first.
  { right. exists row'. split_and!; [by apply list_elem_of_further|done..]. }
  apply freeipa_user_row_cases in Hrow as (u0 & Hu0 & Hcase).
  destruct (list_in (username u0) _) eqn:Hign; simplify_eq; [by left|].
  apply dict_set_elem in Hin1 as [[-> ->]|?]; [|by left].
  right. exists row. split_and!; [apply list_elem_of_here|done..].
Qed.

Lemma freeipa_users_loop_wf rows users users' :
dict_wf users → freeipa_users_loop config rows users = Ok users' → dict_wf users'.
Proof.
revert users. induction rows as [|row rows IH]; intros users Hwf; simpl.
- by intros [= <-].
- intros (users1 & Hrow & Hrest)%bind_Ok. eapply IH; [|done].
  apply freeipa_user_row_cases in Hrow as (u0 & _ & Hcase).
  destruct (list_in _ _); simplify_eq; [done|]. by apply dict_set_wf.
Qed.

(** ** The groups *)

Lemma freeipa_members_loop_keys member_user members m :
m ∈ dict_keys (freeipa_members_loop config member_user members)
↔ m ∈ dict_keys members
  ∨ (m ∈ member_user ∧ list_in m (freeipa_ignore_users_list config) = false).
Proof.
revert members. induction member_user as [|user rest IH]; intros members; simpl.
- split; [by left|]. by intros [?|[?%elem_of_nil _]].
- destruct (list_in user _) eqn:Hign; simpl; rewrite IH, ?dict_set_keys,
    elem_of_cons; intuition (subst; try congruence; auto).
Qed.

Lemma freeipa_members_loop_wf member_user members :
dict_wf members → dict_wf (freeipa_members_loop config member_user members).
Proof.
revert members. induction member_user as [|user rest IH]; intros members Hwf;
  simpl; [done|].
destruct (list_in user _); simpl; apply IH; first [done | by apply dict_set_wf].
Qed.

Lemma freeipa_group_row_cases row groups groups' :
freeipa_group_row config row groups = Ok groups' →
∃ g, freeipa_group_of_row config row g
     ∧ (if list_in (Group.name g) (freeipa_ignore_groups_list config)
        then groups' = groups
        else groups' = dict_set (Group.name g) g groups).
Proof.
unfold freeipa_group_row. cbv zeta.
intros (n & Hn%fetch_required_string_str_Ok & H)%bind_Ok; [|done].
exists (Group.mk n (fetch_string_str (row_attrs row) (Some "description"))
          (match dict_get "member_user" (row_attrs row) with
           | Some member_user => freeipa_members_loop config member_user []
           | None => []
           end)). split.
- unfold freeipa_group_of_row. cbv zeta. simpl. split_and!; [done..| |].
  + destruct (dict_get "member_user" _);
      [apply freeipa_members_loop_wf|]; apply dict_wf_nil.
  + intros m. destruct (dict_get "member_user" _) as [member_user|]; simpl.
    * rewrite freeipa_members_loop_keys. split; [|by right].
      by intros [?%elem_of_nil|?].
    * split; [by intros ?%elem_of_nil | by intros [?%elem_of_nil _]].
- simpl in *. destruct (list_in n _); by simplify_eq.
Qed.

Lemma freeipa_group_row_returns row groups :
(∃ groups', freeipa_group_row config row groups = Ok groups')
↔ group_row_complete row.
Proof.
unfold group_row_complete. split.
- intros [groups' (g & (H1 & _) & _)%freeipa_group_row_cases].
  cbv zeta in H1. rewrite H1. by eauto.
- intros [n Hn]. unfold freeipa_group_row. cbv zeta.
  rewrite (proj2 (fetch_required_string_str_Ok _ "cn" _ ltac:(done)) Hn).
  simpl. destruct (list_in n _); by eauto.
Qed.

Lemma freeipa_groups_loop_returns rows groups :
(∃ groups', freeipa_groups_loop config rows groups = Ok groups')
↔ Forall group_row_complete rows.
Proof.
revert groups. induction rows as [|row rows IH]; intros groups; simpl.
- split; [by intros _; constructor | by eauto].
- rewrite Forall_cons, <-(freeipa_group_row_returns row groups). split.
  + intros [groups' (groups1 & Hrow & Hrest)%bind_Ok].
    split; [by eauto|]. apply (IH groups1). by eauto.
  + intros [[groups1 Hrow] Hrest]. rewrite Hrow. simpl. by apply IH.
Qed.

Lemma freeipa_groups_loop_from_rows rows groups groups' k g :
freeipa_groups_loop config rows groups = Ok groups' →
(k, g) ∈ groups' →
(k, g) ∈ groups
∨ ∃ row, row ∈ rows ∧ freeipa_group_of_row config row g ∧ Group.name g = k
         ∧ list_in k (freeipa_ignore_groups_list config) = false.
Proof.
revert groups. induction rows as [|row rows IH]; intros groups; simpl.
- intros [= <-] ?. by left.
- intros (groups1 & Hrow & Hrest)%bind_Ok Hin.
  destruct (IH _ Hrest Hin) as [Hin1|(row' & ? & ? & ? & ?)]; last first.
  { right. exists row'. split_and!; [by apply list_elem_of_further|done..]. }
  apply freeipa_group_row_cases in Hrow as (g0 & Hg0 & Hcase).
  destruct (list_in (Group.name g0) _) eqn:Hign; simplify_eq; [by left|].
  apply dict_set_elem in Hin1 as [[-> ->]|?]; [|by left].
  right. exists row. split_and!; [apply list_elem_of_here|done..].
Qed.

Lemma freeipa_groups_loop_wf rows groups groups' :
dict_wf groups → freeipa_groups_loop config rows groups = Ok groups' →
dict_wf groups'.
Proof.
revert groups. induction rows as [|row rows IH]; intros groups Hwf; simpl.
- by intros [= <-].
- intros (groups1 & Hrow & Hrest)%bind_Ok. eapply IH; [|done].
  apply freeipa_group_row_cases in Hrow as (g0 & _ & Hcase).
  destruct (list_in _ _); simplify_eq; [done|]. by apply dict_set_wf.
Qed.

Lemma fetch_freeipa_Ok user_find group_find users groups :
fetch_freeipa config user_find group_find = Ok (users, groups)
↔ freeipa_users_loop config user_find [] = Ok users
  ∧ freeipa_groups_loop config group_find [] = Ok groups.
Proof.
unfold fetch_freeipa. split.
- intros (users1 & Hu & H)%bind_Ok. apply bind_Ok in H as (groups1 & Hg & H).
  by simplify_eq.
- intros [-> ->]. done.
Qed.

(** X15: [fetch_freeipa] returns a snapshot exactly when every row of
    [user_find] has [uid], [sn], [cn], [uidnumber] and [nsaccountlock] and
    every row of [group_find] has [cn]; otherwise it raises.  A row of an
    ignored user must be complete too, and no row is refused for naming a
    user or a group that an earlier row named. *)
Theorem fetch_freeipa_returns (user_find group_find : list freeipa_row) :
(∃ users groups, fetch_freeipa config user_find group_find = Ok (users, groups))
↔ Forall user_row_complete user_find ∧ Forall group_row_complete group_find.
Proof.
rewrite <-(freeipa_users_loop_returns user_find []),
  <-(freeipa_groups_loop_returns group_find []).
setoid_rewrite fetch_freeipa_Ok. naive_solver.
Qed.

(** X16: every user [fetch_freeipa] returns was built from a row of
    [user_find] and is stored under its username, which is not on the
    ignore list; it has a numeric id, a blank in place of a missing given
    name or IDP link, [password] in place of a missing auth type, and is
    active when the row is not locked. *)
Theorem fetch_freeipa_users_from_rows user_find group_find users groups k u :
fetch_freeipa config user_find group_find = Ok (users, groups) →
(k, u) ∈ users →
∃ row, row ∈ user_find ∧ freeipa_user_of_row row u ∧ username u = k
       ∧ list_in k (freeipa_ignore_users_list config) = false.
Proof.
intros [Hu _]%fetch_freeipa_Ok Hin.
by destruct (freeipa_users_loop_from_rows _ _ _ _ _ Hu Hin) as [[]%elem_of_nil|?].
Qed.

(** X17: every group [fetch_freeipa] returns was built from a row of
    [group_find] and is stored under its name, which is not on the ignore
    list; its members are exactly the [member_user] values of the row that
    are not ignored users. *)
Theorem fetch_freeipa_groups_from_rows user_find group_find users groups k g :
fetch_freeipa config user_find group_find = Ok (users, groups) →
(k, g) ∈ groups →
∃ row, row ∈ group_find ∧ freeipa_group_of_row config row g ∧ Group.name g = k
       ∧ list_in k (freeipa_ignore_groups_list config) = false.
Proof.
intros [_ Hg]%fetch_freeipa_Ok Hin.
by destruct (freeipa_groups_loop_from_rows _ _ _ _ _ Hg Hin) as [[]%elem_of_nil|?].
Qed.

(** X18: what [fetch_freeipa] returns is keyed by username and by group
    name, and the members of each group are distinct. *)
Theorem fetch_freeipa_keyed user_find group_find users groups :
fetch_freeipa config user_find group_find = Ok (users, groups) →
users_keyed users ∧ groups_keyed groups
∧ ∀ g, g ∈ dict_values groups → dict_wf (Group.members g).
Proof.
intros [Hu Hg]%fetch_freeipa_Ok.
assert (∀ k g, (k, g) ∈ groups →
  Group.name g = k ∧ dict_wf (Group.members g)) as Hgroups.
{ intros k g Hin.
  destruct (freeipa_groups_loop_from_rows _ _ _ _ _ Hg Hin)
    as [[]%elem_of_nil|(_ & _ & (_ & _ & ? & _) & ? & _)]. done. }
split_and!.
- split; [by eapply freeipa_users_loop_wf; [apply dict_wf_nil|]|].
  intros k u Hin.
  by destruct (freeipa_users_loop_from_rows _ _ _ _ _ Hu Hin)
    as [[]%elem_of_nil|(_ & _ & _ & ? & _)].
- split; [by eapply freeipa_groups_loop_wf; [apply dict_wf_nil|]|].
  intros k g Hin. by apply Hgroups.
- intros g [k Hin]%dict_value_elem. by destruct (Hgroups k g Hin).
Qed.
End freeipa_facts.

(** * Loaders, diff and apply phase together *)

Lemma fetch_ldap_Ok decode config user_response group_response users groups :
fetch_ldap decode config user_response group_response = Ok (users, groups) →
∃ user_rows group_rows,
  user_response = Some user_rows ∧ group_response = Some group_rows
  ∧ ldap_users_loop decode config user_rows [] = Ok users
  ∧ ldap_groups_loop decode config group_rows users [] = Ok groups.
Proof.
unfold fetch_ldap. destruct user_response as [urows|]; [|done].
intros (users1 & Hu & H)%bind_Ok.
destruct group_response as [grows|]; [|done].
apply bind_Ok in H as (groups1 & Hg & H). simplify_eq.
by exists urows, grows.
Qed.

Lemma users_keyed_nil : users_keyed [].
Proof. split; [apply dict_wf_nil | by intros ? ? ?%elem_of_nil]. Qed.

(** X19: on the snapshots the two loaders return, no user and no group
    gets two actions: the usernames of the users to add, to delete and to
    modify have no repetition, and neither have the names of the groups. *)
Theorem loaded_snapshots_one_action decode ldap_config user_response group_response
  freeipa_config user_find group_find idp_users idp_groups freeipa_users
  freeipa_groups :
fetch_ldap decode ldap_config user_response group_response
  = Ok (idp_users, idp_groups) →
fetch_freeipa freeipa_config user_find group_find
  = Ok (freeipa_users, freeipa_groups) →
NoDup ((username <$> users_not_in idp_users freeipa_users)
       ++ (username <$> users_not_in freeipa_users idp_users)
       ++ (username <$> modified_users idp_users freeipa_users))
∧ NoDup ((Group.name <$> groups_not_in idp_groups freeipa_groups)
         ++ (Group.name <$> groups_not_in freeipa_groups idp_groups)
         ++ (Group.name <$> modified_groups idp_groups freeipa_groups)).
Proof.
intros (urows & grows & -> & -> & Hu & Hg)%fetch_ldap_Ok
       [Hfu Hfg]%fetch_freeipa_Ok.
apply ldap_users_loop_keyed in Hu as Hiu; [|apply users_keyed_nil].
apply ldap_groups_loop_ok in Hg as [Hok Hwf];
  [|by intros ? ? ?%elem_of_nil | apply dict_wf_nil].
assert (groups_keyed idp_groups) as Hig.
{ split; [done|]. intros k g Hin. by destruct (Hok k g Hin). }
assert (users_keyed freeipa_users) as Hfuk.
{ split; [by eapply freeipa_users_loop_wf; [apply dict_wf_nil|]|].
  intros k u Hin.
  by destruct (freeipa_users_loop_from_rows _ _ _ _ _ _ Hfu Hin)
    as [[]%elem_of_nil|(_ & _ & _ & ? & _)]. }
assert (groups_keyed freeipa_groups) as Hfgk.
{ split; [by eapply freeipa_groups_loop_wf; [apply dict_wf_nil|]|].
  intros k g Hin.
  by destruct (freeipa_groups_loop_from_rows _ _ _ _ _ _ Hfg Hin)
    as [[]%elem_of_nil|(_ & _ & _ & ? & _)]. }
split; [by apply user_lists_NoDup | by apply group_lists_NoDup].
Qed.

Lemma plan_sync_member_calls idp_users idp_groups freeipa_users freeipa_groups c :
(∀ g member, g ∈ dict_values idp_groups →
             member ∈ dict_keys (Group.members g) → member ∈ dict_keys idp_users) →
c ∈ calls (plan_sync idp_users idp_groups freeipa_users freeipa_groups false) →
match c with
| group_add_member _ member | group_remove_member _ member =>
    member ∈ dict_keys idp_users
| _ => True
end.
Proof.
intros Hknown Hin. rewrite plan_sync_calls, !elem_of_app in Hin.
assert (∀ g, g ∈ groups_not_in idp_groups freeipa_groups → g ∈ dict_values idp_groups)
  as Hnew by (by intros g [_ ?]%list_elem_of_filter).
assert (∀ g, g ∈ modified_groups idp_groups freeipa_groups → g ∈ dict_values idp_groups)
  as Hmod.
{ intros g. rewrite modified_groups_filter. by intros [_ ?]%list_elem_of_filter. }
destruct c as [| | | |cn member| |cn member|]; try done.
- destruct Hin as [Hin|[Hin|[Hin|[Hin|[Hin|Hin]]]]];
    try (by apply list_elem_of_fmap in Hin as (? & ? & _)).
  + apply list_elem_of_bind in Hin as (g & Hin & Hg).
    apply elem_of_cons in Hin as [?|Hin]; [done|].
    apply list_elem_of_fmap in Hin as (m & [= _ ->] & Hm).
    by eapply Hknown; [apply Hnew|].
  + apply list_elem_of_bind in Hin as (g & Hin & Hg).
    destruct (dict_get _ _) as [fg|]; [|by apply elem_of_nil in Hin].
    unfold group_mod_calls in Hin. apply elem_of_app in Hin as [Hin|Hin].
    { destruct (ne _ _); [|by apply elem_of_nil in Hin].
      by apply list_elem_of_singleton in Hin. }
    destruct (members_ne _ _); [|by apply elem_of_nil in Hin].
    apply elem_of_app in Hin as [Hin|Hin];
      apply list_elem_of_fmap in Hin as (m & [= _ ->] & Hm).
    apply list_elem_of_filter in Hm as [_ Hm].
    by eapply Hknown; [apply Hmod|].
- destruct Hin as [Hin|[Hin|[Hin|[Hin|[Hin|Hin]]]]];
    try (by apply list_elem_of_fmap in Hin as (? & ? & _)).
  + apply list_elem_of_bind in Hin as (g & Hin & Hg).
    apply elem_of_cons in Hin as [?|Hin]; [done|].
    by apply list_elem_of_fmap in Hin as (m & ? & _).
  + apply list_elem_of_bind in Hin as (g & Hin & Hg).
    destruct (dict_get _ _) as [fg|]; [|by apply elem_of_nil in Hin].
    unfold group_mod_calls in Hin. apply elem_of_app in Hin as [Hin|Hin].
    { destruct (ne _ _); [|by apply elem_of_nil in Hin].
      by apply list_elem_of_singleton in Hin. }
    destruct (members_ne _ _); [|by apply elem_of_nil in Hin].
    apply elem_of_app in Hin as [Hin|Hin];
      apply list_elem_of_fmap in Hin as (m & [= _ ->] & Hm).
    rewrite members_to_remove_filter in Hm.
    by apply list_elem_of_filter in Hm as [[_ ?] _].
Qed.

(** X20: with the snapshot [fetch_ldap] returns as the desired side, every
    membership call of the apply phase, adding or removing, is for a user
    that is a key of the IDP users, whatever the current snapshot is. *)
Theorem sync_membership_calls_known_users {cstate : Type}
  (rpc : call → cstate → result cstate) decode config user_response group_response
  idp_users idp_groups freeipa_users freeipa_groups (dry_run : bool) (s : cstate)
  (c : call) :
fetch_ldap decode config user_response group_response
  = Ok (idp_users, idp_groups) →
Call c ∈ log (sync rpc idp_users idp_groups freeipa_users freeipa_groups dry_run s) →
match c with
| group_add_member _ member | group_remove_member _ member =>
    member ∈ dict_keys idp_users
| _ => True
end.
Proof.
intros (urows & grows & -> & -> & Hu & Hg)%fetch_ldap_Ok Hin%elem_of_calls.
apply ldap_groups_loop_ok in Hg as [Hok _];
  [|by intros ? ? ?%elem_of_nil | apply dict_wf_nil].
pose proof (sync_calls_prefix rpc idp_users idp_groups freeipa_users
              freeipa_groups dry_run s) as Hpre.
apply (elem_of_prefix _ _ _ Hin) in Hpre. destruct dry_run.
{ rewrite plan_sync_dry_calls in Hpre. by apply elem_of_nil in Hpre. }
eapply plan_sync_member_calls; [|done].
intros g member [k Hg]%dict_value_elem Hm.
destruct (Hok k g Hg) as (_ & _ & Hknown). by apply Hknown.
Qed.

(** * [strtobool] *)

Lemma lower_upper_ascii (c : ascii) : lower_ascii (upper_ascii c) = lower_ascii c.
Proof. by destruct c as [[] [] [] [] [] [] [] []]. Qed.

Lemma lower_lower_ascii (c : ascii) : lower_ascii (lower_ascii c) = lower_ascii c.
Proof. by destruct c as [[] [] [] [] [] [] [] []]. Qed.

Lemma lower_upper (s : string) : lower (upper s) = lower s.
Proof. induction s as [|c s IH]; [done|]. simpl. by rewrite lower_upper_ascii, IH. Qed.

Lemma lower_lower (s : string) : lower (lower s) = lower s.
Proof. induction s as [|c s IH]; [done|]. simpl. by rewrite lower_lower_ascii, IH. Qed.

Lemma lower_length (s : string) : String.length (lower s) = String.length s.
Proof. induction s as [|c s IH]; [done|]. simpl. by rewrite IH. Qed.

(** X21: [strtobool] does not look at the case of letters, and it is true
    only of a value of one to four characters: nothing is stripped, so a
    blank around a word makes it false. *)
Theorem strtobool_case_insensitive (val : string) :
strtobool (upper val) = strtobool val
∧ strtobool (lower val) = strtobool val
∧ (strtobool val = true → 1 ≤ String.length val ≤ 4)
∧ strtobool (" " +:+ val) = false.
Proof.
unfold strtobool. cbv zeta. rewrite lower_upper, lower_lower. split_and!; [done..| |].
- unfold list_in. case_bool_decide as Hin; [|done]. intros _.
  rewrite <-(lower_length val). set_unfold in Hin.
  destruct Hin as [->|[->|[->|[->|[->|[->|[]]]]]]]; simpl; lia.
- change (lower (" " +:+ val)) with (String " " (lower val)).
  unfold list_in. rewrite bool_decide_eq_false_2; [done|].
  set_unfold. naive_solver.
Qed.

(** * The further properties on concrete data *)

Lemma groups_partition_witness :
let desired :=
  groups_of [sample_group "eng" None ["alice"; "bob"]; sample_group "ops" None []] in
let current :=
  groups_of [sample_group "eng" None ["bob"]; sample_group "old" None []] in
let to_add := Group.name <$> groups_not_in desired current in
let to_delete := Group.name <$> groups_not_in current desired in
let to_modify := Group.name <$> modified_groups desired current in
groups_keyed desired ∧ groups_keyed current
∧ ("eng" ∈ dict_keys desired ∨ "eng" ∈ dict_keys current)
∧ NoDup (to_add ++ to_delete ++ to_modify)
∧ "eng" ∈ to_modify.
Proof.
intros desired current to_add to_delete to_modify.
assert (groups_keyed desired) as Hd by (apply groups_of_keyed; by_decide).
assert (groups_keyed current) as Hc by (apply groups_of_keyed; by_decide).
assert ("eng" ∈ dict_keys desired ∨ "eng" ∈ dict_keys current) as Hn
  by (left; by_decide).
destruct (groups_partition desired current "eng" Hd Hc Hn)
  as (Hnodup & _ & _ & Hmod & _).
split_and!; [done..|].
apply Hmod. by exists (sample_group "eng" None ["alice"; "bob"]),
                      (sample_group "eng" None ["bob"]).
Defined.

Lemma same_members_sample :
list_to_set (dict_keys (members_of ["alice"; "bob"]))
=@{gset string} list_to_set (dict_keys (members_of ["bob"; "alice"])).
Proof. simpl. set_solver. Defined.

Lemma group_match_sets_witness :
let desired := sample_group "eng" None ["alice"; "bob"] in
let current := sample_group "eng" None ["bob"; "alice"] in
dict_wf (Group.members desired) ∧ dict_wf (Group.members current)
∧ group_match desired current = true.
Proof.
intros desired current.
assert (dict_wf (Group.members desired)) as Hd by (apply members_of_wf; by_decide).
assert (dict_wf (Group.members current)) as Hc by (apply members_of_wf; by_decide).
split_and!; [done..|].
apply (group_match_sets desired current Hd Hc).
split; [done | apply same_members_sample].
Defined.

Lemma group_mod_same_members_witness :
let desired := sample_group "eng" (Some "Engineering") ["alice"; "bob"] in
let current := sample_group "eng" None ["bob"; "alice"] in
let idp_users := users_of [sample_user "alice" None; sample_user "bob" None] in
dict_wf (Group.members desired) ∧ dict_wf (Group.members current)
∧ list_to_set (dict_keys (Group.members desired))
    =@{gset string} list_to_set (dict_keys (Group.members current))
∧ Call (group_add_member "eng" "alice")
    ∉ log (freeipa_group_mod accept desired current idp_users false tt)
∧ Call (group_remove_member "eng" "alice")
    ∉ log (freeipa_group_mod accept desired current idp_users false tt).
Proof.
intros desired current idp_users.
assert (dict_wf (Group.members desired)) as Hd by (apply members_of_wf; by_decide).
assert (dict_wf (Group.members current)) as Hc by (apply members_of_wf; by_decide).
split; [done|]. split; [done|]. split; [apply same_members_sample|].
exact (group_mod_same_members accept desired current idp_users false tt
         "eng" "alice" Hd Hc same_members_sample).
Defined.

Lemma sync_raises_only_client_errors_witness :
let idp_users := users_of [sample_user "alice" None] in
ret (sync reject idp_users [] [] [] false tt) = Raise BadRequest
∧ false = false
∧ ∃ c s0, reject c s0 = Raise BadRequest.
Proof.
intros idp_users. split; [reflexivity|].
exact (sync_raises_only_client_errors reject idp_users [] [] [] false tt
         BadRequest eq_refl).
Defined.

Lemma sync_in_sync_noop_witness :
let users := users_of [sample_user "alice" None; sample_user "bob" None] in
let groups := groups_of [sample_group "eng" None ["alice"; "bob"]] in
users_keyed users ∧ groups_keyed groups
∧ sync accept users groups users groups false tt
  = Reply [Print "Sync Complete"] (Ok (tt, tt)).
Proof.
intros users groups.
assert (users_keyed users) as Hu by (apply users_of_keyed; by_decide).
assert (groups_keyed groups) as Hg by (apply groups_of_keyed; by_decide).
split_and!; [done..|].
exact (sync_in_sync_noop accept users groups false tt Hu Hg).
Defined.

Lemma sync_user_calls_precede_group_calls_witness :
let idp_users := users_of [sample_user "alice" None] in
let idp_groups := groups_of [sample_group "eng" None ["alice"]] in
let cs := calls (log (sync accept idp_users idp_groups [] [] false tt)) in
cs !! 0 = Some (user_add (user_kwargs_of (sample_user "alice" None)))
∧ cs !! 2 = Some (group_add_member "eng" "alice")
∧ 0 < 2.
Proof.
intros idp_users idp_groups cs. split; [reflexivity|]. split; [reflexivity|].
exact (sync_user_calls_precede_group_calls accept idp_users idp_groups [] []
         false tt 0 2 _ _ eq_refl eq_refl I I).
Defined.

Lemma fetch_ldap_users_from_rows_witness :
∃ users groups u,
  fetch_ldap Some sample_config (Some sample_user_rows) (Some sample_group_rows)
  = Ok (users, groups)
  ∧ dict_get "bob" users = Some u
  ∧ idp_username u = "bob@a.example"
  ∧ ∃ row, row ∈ sample_user_rows ∧ user_of_row Some sample_config row u
           ∧ username u = "bob".
Proof.
eexists _, _, _. split; [vm_compute; reflexivity|].
split; [reflexivity|]. split; [reflexivity|].
eapply (fetch_ldap_users_from_rows Some sample_config sample_user_rows
          (Some sample_group_rows)); [vm_compute|]; reflexivity.
Defined.

Lemma fetch_ldap_usernames_witness :
∃ users groups u,
  fetch_ldap Some sample_config (Some sample_user_rows) (Some sample_group_rows)
  = Ok (users, groups)
  ∧ u ∈ dict_values users
  ∧ idp_username u = "bob@a.example"
  ∧ "@"%char ∉ String.list_ascii_of_string (username u)
  ∧ (idp_username u = username u
     ∨ ∃ rest, idp_username u = username u +:+ String "@"%char rest)
  ∧ list_in (idp_username u) (ignore_users_list sample_config) = false.
Proof.
eexists _, _, _. split; [vm_compute; reflexivity|].
split; [apply list_elem_of_here|]. split; [reflexivity|].
eapply (fetch_ldap_usernames Some sample_config (Some sample_user_rows)
          (Some sample_group_rows)); [vm_compute; reflexivity|].
apply list_elem_of_here.
Defined.

Lemma fetch_ldap_groups_from_rows_witness :
∃ users groups g,
  fetch_ldap Some sample_config (Some sample_user_rows) (Some sample_group_rows)
  = Ok (users, groups)
  ∧ ("eng", g) ∈ groups
  ∧ dict_keys (Group.members g) = ["bob"]
  ∧ ∃ row, row ∈ sample_group_rows
           ∧ group_of_row Some sample_config users row g
           ∧ Group.name g = "eng".
Proof.
eexists _, _, _. split; [vm_compute; reflexivity|].
split; [apply list_elem_of_here|]. split; [reflexivity|].
eapply (fetch_ldap_groups_from_rows Some sample_config (Some sample_user_rows)
          sample_group_rows); [vm_compute; reflexivity|].
apply list_elem_of_here.
Defined.

Lemma fetch_ldap_keyed_witness :
∃ users groups,
  fetch_ldap Some sample_config (Some sample_user_rows) (Some sample_group_rows)
  = Ok (users, groups)
  ∧ dict_keys users = ["bob"; "amy"]
  ∧ dict_keys groups = ["eng"; "ops"]
  ∧ users_keyed users ∧ groups_keyed groups
  ∧ ∀ g, g ∈ dict_values groups → dict_wf (Group.members g).
Proof.
eexists _, _. split; [vm_compute; reflexivity|].
split; [reflexivity|]. split; [reflexivity|].
apply (fetch_ldap_keyed Some sample_config (Some sample_user_rows)
         (Some sample_group_rows)).
vm_compute. reflexivity.
Defined.

Lemma fetch_freeipa_users_from_rows_witness :
∃ users groups u,
  fetch_freeipa sample_freeipa_config sample_user_find sample_group_find
  = Ok (users, groups)
  ∧ dict_keys users = ["bob"; "carol"]
  ∧ ("carol", u) ∈ users
  ∧ active u = false
  ∧ ∃ row, row ∈ sample_user_find ∧ freeipa_user_of_row row u
           ∧ username u = "carol"
           ∧ list_in "carol" (freeipa_ignore_users_list sample_freeipa_config)
             = false.
Proof.
eexists _, _, _. split; [vm_compute; reflexivity|].
split; [reflexivity|].
split; [apply list_elem_of_further, list_elem_of_here|]. split; [reflexivity|].
eapply (fetch_freeipa_users_from_rows sample_freeipa_config sample_user_find
          sample_group_find); [vm_compute; reflexivity|].
apply list_elem_of_further, list_elem_of_here.
Defined.

Lemma fetch_freeipa_groups_from_rows_witness :
∃ users groups g,
  fetch_freeipa sample_freeipa_config sample_user_find sample_group_find
  = Ok (users, groups)
  ∧ dict_keys groups = ["eng"]
  ∧ ("eng", g) ∈ groups
  ∧ dict_keys (Group.members g) = ["bob"; "carol"]
  ∧ ∃ row, row ∈ sample_group_find
           ∧ freeipa_group_of_row sample_freeipa_config row g
           ∧ Group.name g = "eng"
           ∧ list_in "eng" (freeipa_ignore_groups_list sample_freeipa_config)
             = false.
Proof.
eexists _, _, _. split; [vm_compute; reflexivity|].
split; [reflexivity|]. split; [apply list_elem_of_here|]. split; [reflexivity|].
eapply (fetch_freeipa_groups_from_rows sample_freeipa_config sample_user_find
          sample_group_find); [vm_compute; reflexivity|].
apply list_elem_of_here.
Defined.

Lemma fetch_freeipa_keyed_witness :
∃ users groups,
  fetch_freeipa sample_freeipa_config sample_user_find sample_group_find
  = Ok (users, groups)
  ∧ users_keyed users ∧ groups_keyed groups
  ∧ ∀ g, g ∈ dict_values groups → dict_wf (Group.members g).
Proof.
eexists _, _. split; [vm_compute; reflexivity|].
apply (fetch_freeipa_keyed sample_freeipa_config sample_user_find
         sample_group_find).
vm_compute. reflexivity.
Defined.

Lemma loaded_snapshots_one_action_witness :
∃ idp_users idp_groups freeipa_users freeipa_groups,
  fetch_ldap Some sample_config (Some sample_user_rows) (Some sample_group_rows)
  = Ok (idp_users, idp_groups)
  ∧ fetch_freeipa sample_freeipa_config sample_user_find sample_group_find
    = Ok (freeipa_users, freeipa_groups)
  ∧ username <$> users_not_in idp_users freeipa_users = ["amy"]
  ∧ username <$> users_not_in freeipa_users idp_users = ["carol"]
  ∧ username <$> modified_users idp_users freeipa_users = ["bob"]
  ∧ NoDup ((username <$> users_not_in idp_users freeipa_users)
           ++ (username <$> users_not_in freeipa_users idp_users)
           ++ (username <$> modified_users idp_users freeipa_users))
  ∧ NoDup ((Group.name <$> groups_not_in idp_groups freeipa_groups)
           ++ (Group.name <$> groups_not_in freeipa_groups idp_groups)
           ++ (Group.name <$> modified_groups idp_groups freeipa_groups)).
Proof.
eexists _, _, _, _. split; [vm_compute; reflexivity|].
split; [vm_compute; reflexivity|].
split; [reflexivity|]. split; [reflexivity|]. split; [reflexivity|].
apply (loaded_snapshots_one_action Some sample_config (Some sample_user_rows)
         (Some sample_group_rows) sample_freeipa_config sample_user_find
         sample_group_find); vm_compute; reflexivity.
Defined.

Lemma sync_membership_calls_known_users_witness :
∃ idp_users idp_groups,
  fetch_ldap Some sample_config (Some sample_user_rows) (Some sample_group_rows)
  = Ok (idp_users, idp_groups)
  ∧ Call (group_add_member "eng" "bob")
    ∈ log (sync accept idp_users idp_groups [] [] false tt)
  ∧ "bob" ∈ dict_keys idp_users.
Proof.
eexists _, _. split; [vm_compute; reflexivity|].
match goal with
| |- ?call ∈ ?l ∧ _ => assert (call ∈ l) as Hin by by_decide
end.
split; [done|].
exact (sync_membership_calls_known_users accept Some sample_config
         (Some sample_user_rows) (Some sample_group_rows) _ _ [] [] false tt
         (group_add_member "eng" "bob") ltac:(vm_compute; reflexivity) Hin).
Defined.

(** A member value without [=], and one that does not decode: the load
    raises and returns no snapshot, where dropping the value would have
    given the group [eng] without members. *)
Lemma fetch_ldap_unparseable_member_raises :
unparseable Some "bob"
∧ fetch_ldap Some sample_config (Some [sample_user_row "bob"])
    (Some [sample_group_row "eng" ["bob"]])
  = Raise IndexError
∧ unparseable (decode_except "not-utf-8") "not-utf-8"
∧ fetch_ldap (decode_except "not-utf-8") sample_config
    (Some [sample_user_row "bob"])
    (Some [sample_group_row "eng" ["not-utf-8"]])
  = Raise UnicodeDecodeError
∧ ∃ users,
    fetch_ldap Some sample_config (Some [sample_user_row "bob"])
      (Some [sample_group_row "eng" []])
    = Ok (users, [("eng", Group.mk "eng" None [])]).
Proof.
split_and!; [right; by exists "bob", "bob" | reflexivity | by left
            | reflexivity | by eexists].
Qed.

Lemma fetch_ldap_member_handling_witness :
∃ users groups,
  fetch_ldap Some sample_config (Some sample_user_rows) (Some sample_group_rows)
  = Ok (users, groups)
  ∧ dict_keys users = ["bob"; "amy"]
  ∧ (dict_keys ∘ Group.members) <$> dict_values groups = [["bob"]; ["amy"]]
  ∧ (∀ group member,
       group ∈ dict_values groups →
       member ∈ dict_keys (Group.members group) →
       member ∈ dict_keys users)
  ∧ ∃ e, fetch_ldap Some sample_config (Some sample_user_rows)
           (Some (sample_group_rows ++ [sample_group_row "bad" ["bob"]]))
         = Raise e.
Proof.
eexists _, _. split; [vm_compute; reflexivity|].
split; [reflexivity|]. split; [reflexivity|].
destruct (fetch_ldap_member_handling Some sample_config) as (Hknown & _ & Hraise).
split.
- apply (Hknown (Some sample_user_rows) (Some sample_group_rows)).
  vm_compute. reflexivity.
- apply (Hraise (Some sample_user_rows) _ (sample_group_row "bad" ["bob"]) "bob").
  + apply elem_of_app. right. apply list_elem_of_here.
  + reflexivity.
  + apply list_elem_of_here.
  + right. by exists "bob", "bob".
Defined.
